(** * MClip: the clip-extraction pipeline, embedded from the Python source

    The development follows [backend/src/ai.py] (segment selection: LLM
    transport, JSON recovery, validation, fallback expansion) and
    [backend/src/video_utils.py] (timestamp helpers, subtitle layer, clip
    index).  Python values decoded from JSON are an inductive type, dicts are
    finite maps, exceptions are an error monad, and what lives outside the
    repository is a parameter: [json.loads] and [float] on strings are the
    fields of the class [Builtins], the media work is the class [Renderer],
    and the LLM server is a function from the attempt number to what the
    request does.  Strings are modelled on the ASCII range. *)

From Stdlib Require Import ZArith QArith Qround Lqa String Ascii List Sorted Permutation Lia.
From Stdlib Require Import DecimalString DecimalPos DecimalN.
From stdpp Require Import gmap strings list.

#[local] Set Warnings "-register-all".
#[local] Open Scope Z_scope.

(** ** Python values and exceptions *)

Module Py.

(** A Python float.  A finite float is represented by the rational it
    denotes; rounding of literals and of arithmetic is not modelled, the
    special values are. *)
Inductive pyfloat : Type :=
| FNan
| FInf (negative : bool)
| FFin (q : Q).

(** Values produced by [json.loads]. *)
Inductive pyval : Type :=
| PNone
| PBool (b : bool)
| PInt (z : Z)
| PFloat (f : pyfloat)
| PStr (s : string)
| PList (l : list pyval)
| PDict (d : gmap string pyval).

(** The exception classes the modelled code can raise. *)
Inductive exn : Type :=
| ValueError | KeyError | TypeError | AttributeError | OverflowError.

Inductive res (A : Type) : Type :=
| Ok (a : A)
| Raise (e : exn).
Arguments Ok {A} a.
Arguments Raise {A} e.

Definition bind {A B} (m : res A) (k : A -> res B) : res B :=
  match m with
  | Ok a => k a
  | Raise e => Raise e
  end.

(** [d.get(key, default)] *)
Definition dict_get (d : gmap string pyval) (key : string) (dflt : pyval) : pyval :=
  match d !! key with
  | Some v => v
  | None => dflt
  end.

(** *** Floats *)

Definition fle (a b : pyfloat) : bool :=
  match a, b with
  | FNan, _ | _, FNan => false
  | FInf true, _ => true
  | _, FInf false => true
  | FInf false, _ => false
  | _, FInf true => false
  | FFin x, FFin y => Qle_bool x y
  end.

Definition flt (a b : pyfloat) : bool :=
  match a, b with
  | FNan, _ | _, FNan => false
  | FInf n, FInf m => n && negb m
  | FInf true, FFin _ => true
  | FFin _, FInf false => true
  | FInf false, FFin _ => false
  | FFin _, FInf true => false
  | FFin x, FFin y => negb (Qle_bool y x)
  end.

Definition fsub (a b : pyfloat) : pyfloat :=
  match a, b with
  | FNan, _ | _, FNan => FNan
  | FInf n, FInf m => if Bool.eqb n m then FNan else FInf n
  | FInf n, FFin _ => FInf n
  | FFin _, FInf m => FInf (negb m)
  | FFin x, FFin y => FFin (x - y)
  end.

Definition fzero : pyfloat := FFin 0.
Definition fone : pyfloat := FFin 1.

(** [float(z)] for an int raises [OverflowError] once the nearest double is
    out of range. *)
Definition float_of_int (z : Z) : res pyfloat :=
  if 2 ^ 1024 - 2 ^ 970 <=? Z.abs z then Raise OverflowError
  else Ok (FFin (inject_Z z)).

(** Truth value of an object, as used by [not x] and [if x]. *)
Definition truthy (v : pyval) : bool :=
  match v with
  | PNone => false
  | PBool b => b
  | PInt z => negb (z =? 0)
  | PFloat FNan => true
  | PFloat (FInf _) => true
  | PFloat (FFin q) => negb (Qeq_bool q 0)
  | PStr s => negb (String.eqb s EmptyString)
  | PList l => match l with [] => false | _ => true end
  | PDict d => negb (bool_decide (d = ∅))
  end.

(** *** Strings *)

(** [str.isspace] on the ASCII range. *)
Definition is_space (c : ascii) : bool :=
  let n := nat_of_ascii c in
  ((9 <=? n) && (n <=? 13) || (28 <=? n) && (n <=? 32))%nat.

Fixpoint lstrip (s : string) : string :=
  match s with
  | String c s' => if is_space c then lstrip s' else s
  | EmptyString => EmptyString
  end.

Fixpoint rstrip (s : string) : string :=
  match s with
  | String c s' =>
      match rstrip s' with
      | EmptyString => if is_space c then EmptyString else String c EmptyString
      | r => String c r
      end
  | EmptyString => EmptyString
  end.

(** [s.strip()] *)
Definition strip (s : string) : string := rstrip (lstrip s).

(** [s.split(sep)] for a one-character separator: the pieces between
    occurrences, always at least one piece. *)
Fixpoint split_on (sep : ascii) (s : string) : list string :=
  match s with
  | EmptyString => [EmptyString]
  | String c s' =>
      if Ascii.eqb c sep then EmptyString :: split_on sep s'
      else match split_on sep s' with
           | p :: ps => String c p :: ps
           | [] => [String c EmptyString]
           end
  end.

(** [s.split()]: maximal runs of non-whitespace characters. *)
Fixpoint split_ws_aux (cur : option string) (s : string) : list string :=
  match s with
  | EmptyString => match cur with Some w => [w] | None => [] end
  | String c s' =>
      if is_space c then
        match cur with
        | Some w => w :: split_ws_aux None s'
        | None => split_ws_aux None s'
        end
      else
        match cur with
        | Some w => split_ws_aux (Some (w +:+ String c EmptyString)) s'
        | None => split_ws_aux (Some (String c EmptyString)) s'
        end
  end.

Definition split_ws (s : string) : list string := split_ws_aux None s.

(** [c in s] *)
Fixpoint contains (c : ascii) (s : string) : bool :=
  match s with
  | EmptyString => false
  | String c' s' => Ascii.eqb c c' || contains c s'
  end.

(** [s.replace(c, '')] *)
Fixpoint remove_char (c : ascii) (s : string) : string :=
  match s with
  | EmptyString => EmptyString
  | String c' s' => if Ascii.eqb c c' then remove_char c s' else String c' (remove_char c s')
  end.

(** [sep.join(parts)] *)
Fixpoint join (sep : string) (parts : list string) : string :=
  match parts with
  | [] => EmptyString
  | [p] => p
  | p :: ps => p +:+ sep +:+ join sep ps
  end.

Definition is_digit (c : ascii) : bool :=
  let n := nat_of_ascii c in ((48 <=? n) && (n <=? 57))%nat.

Definition digit_val (c : ascii) : Z := Z.of_nat (nat_of_ascii c) - 48.

(** The digit part of an [int] literal: decimal digits, single underscores
    allowed between digits only. *)
Fixpoint int_digits (acc : Z) (after_digit : bool) (s : string) : option Z :=
  match s with
  | EmptyString => if after_digit then Some acc else None
  | String c s' =>
      if Ascii.eqb c "_" then
        if after_digit then int_digits acc false s' else None
      else if is_digit c then int_digits (10 * acc + digit_val c) true s'
      else None
  end.

(** [int(s)] for a string in base 10: surrounding whitespace, an optional
    sign, then the digits.  [None] is [ValueError]. *)
Definition int_of_str (s : string) : option Z :=
  match strip s with
  | String "-" r => option_map Z.opp (int_digits 0 false r)
  | String "+" r => int_digits 0 false r
  | r => int_digits 0 false r
  end.

(** Decimal digits of a natural number, [str(n)] for [n >= 0]. *)
Definition str_of_N (n : N) : string := NilEmpty.string_of_uint (N.to_uint n).

(** [str(z)] *)
Definition str_of_Z (z : Z) : string :=
  if z <? 0 then String "-" (str_of_N (Z.to_N (- z))) else str_of_N (Z.to_N z).

(** [f"{z:02d}"]: zero-padded to width two, the sign counts in the width. *)
Definition fmt_02d (z : Z) : string :=
  let s := str_of_Z z in
  if (String.length s <? 2)%nat then String "0" s else s.

End Py.

Import Py.

(** Builtins of the Python runtime that the repository calls on strings.
    They are not part of the source; the development is parametric in them. *)
Class Builtins : Type := {
  (** [float(s)] on a string; [None] is [ValueError]. *)
  float_of_str : string -> option pyfloat;
  (** [json.loads(s)]; [None] is [json.JSONDecodeError]. *)
  json_loads : string -> option pyval
}.

(** [float(v)] *)
Definition py_float `{Builtins} (v : pyval) : res pyfloat :=
  match v with
  | PFloat f => Ok f
  | PInt z => float_of_int z
  | PBool b => Ok (if b then fone else fzero)
  | PStr s => match float_of_str s with Some f => Ok f | None => Raise ValueError end
  | PNone | PList _ | PDict _ => Raise TypeError
  end.

(** ** backend/src/video_utils.py: timestamp formatting *)

Module VideoUtilsTime.

(** [format_timestamp(seconds)] on [None] and on integer seconds:
    [minutes = int(seconds // 60)], [seconds_i = int(seconds % 60)] are floor
    division and its remainder. *)
Definition format_timestamp (seconds : option Z) : string :=
  match seconds with
  | None => "00:00"
  | Some s =>
      let minutes := s / 60 in
      let seconds_i := s mod 60 in
      fmt_02d minutes +:+ ":" +:+ fmt_02d seconds_i
  end.

End VideoUtilsTime.

(** ** backend/src/ai.py: constants, timestamps, validation *)

Module Ai.

Definition MIN_SEGMENT_DURATION : Z := 30.
Definition MAX_SEGMENT_DURATION : Z := 60.
Definition MIN_SEGMENTS : nat := 3.
Definition MAX_SEGMENTS : nat := 5.

Record TranscriptSegment : Type := {
  start_time : string;
  end_time : string;
  text : string;
  relevance_score : pyfloat;
  reasoning : pyval
}.

(** Why an analysis failed: the argument of the exception that reaches the
    outer handler of [get_most_relevant_parts_by_transcript]. *)
Inductive failure : Type :=
| NoResponse        (* "No response from Ollama after connection test succeeded" *)
| NoValidJson       (* "No valid JSON found in model response" *)
| Exception (e : exn).

(** The summary string of an analysis. *)
Inductive summary_text : Type :=
| FromModel (v : pyval)     (* [json_data.get("summary", "Video analysis completed")] *)
| NoTranscriptProvided      (* "No transcript provided" *)
| ConnectionTestFailed      (* "Analysis failed: Ollama connection test failed" *)
| ValidationFailed          (* "Analysis failed" *)
| AnalysisFailed (cause : failure).   (* f"Analysis failed: {exc}" *)

Record TranscriptAnalysis : Type := {
  most_relevant_segments : list TranscriptSegment;
  summary : summary_text;
  key_topics : list pyval
}.

(** Entries of the Ollama log file that the development tracks.  Entries
    that only carry lengths, previews or timestamps are left out. *)
Inductive log_event : Type :=
| NoTextProvided                      (* ERROR, JSON extraction on an empty text *)
| DirectParseOk
| DirectParseFailed                   (* WARNING, [json.JSONDecodeError] *)
| DirectParseUnexpected               (* WARNING, any other exception *)
| CodeBlocksFound (n : nat)
| CodeBlockOk (i : nat)
| CodeBlockFailed (i : nat)
| NoOpeningBrace                      (* ERROR *)
| BraceFound
| BraceParseOk
| BraceParseFailed
| ExtractFailed (end_positions : nat) (* ERROR *)
| FullResponseText (text : string)    (* ERROR, the text verbatim *)
| Slept (seconds : Z)                 (* [time.sleep] *)
| Posted (attempt : nat)              (* [session.post] *)
| EmptyTranscript                     (* ERROR *)
| ConnectionFailed                    (* ERROR *)
| OnlyFound (n : nat)                 (* WARNING *)
| FallbackAttempt
| ExpanderStart                       (* first entry written by the expander *)
| FallbackRevalidated (n : nat)
| AfterFallback (n : nat)
| FallbackFailed (e : exn)            (* ERROR *)
| Selected (n : nat)
| AnalysisError (cause : failure).    (* ERROR *)

(** The seconds field: [int(seconds.split('.')[0]) if '.' in seconds else
    int(seconds)]. *)
Definition seconds_component (seconds : string) : option Z :=
  if contains "." seconds then
    match split_on "." seconds with
    | p :: _ => int_of_str p
    | [] => None
    end
  else int_of_str seconds.

(** [parse_timestamp_to_seconds(ts)]; every failure is a [ValueError],
    which is [None] here. *)
Definition parse_timestamp_to_seconds (ts : pyval) : option Z :=
  match ts with
  | PStr ts =>
      let parts := split_on ":" (strip ts) in
      let components :=
        match parts with
        | [minutes; seconds] =>
            match int_of_str minutes, seconds_component seconds with
            | Some m, Some s => Some (0, m, s)
            | _, _ => None
            end
        | [hours; minutes; seconds] =>
            match int_of_str hours, int_of_str minutes, seconds_component seconds with
            | Some h, Some m, Some s => Some (h, m, s)
            | _, _, _ => None
            end
        | _ => None
        end in
      match components with
      | Some (hours_i, minutes_i, seconds_i) =>
          if (seconds_i <? 0) || (minutes_i <? 0) || (hours_i <? 0) then None
          else Some (hours_i * 3600 + minutes_i * 60 + seconds_i)
      | None => None
      end
  | _ => None
  end.

Section Validation.
Context `{Builtins}.

(** Outcome of the body of the validation loop for one element. *)
Inductive verdict : Type :=
| Accepted (s : TranscriptSegment)
| Skipped
| Uncaught (e : exn).

(** The [try] block of [validate_segments], before the [except] clause. *)
Definition validate_try (d : gmap string pyval) : res (option TranscriptSegment) :=
  let start_time := dict_get d "start_time" (PStr EmptyString) in
  let end_time := dict_get d "end_time" (PStr EmptyString) in
  let text := dict_get d "text" (PStr EmptyString) in
  bind (py_float (dict_get d "relevance_score" (PFloat (FFin (8 # 10))))) (fun relevance_score =>
  let reasoning := dict_get d "reasoning" (PStr "Engaging segment") in
  if negb (truthy text) then Ok None
  else
    match text with
    | PStr text_s =>
        if (length (split_ws text_s) <? 3)%nat then Ok None
        else
          match parse_timestamp_to_seconds start_time with
          | None => Raise ValueError
          | Some start_sec =>
              match parse_timestamp_to_seconds end_time with
              | None => Raise ValueError
              | Some end_sec =>
                  let duration := end_sec - start_sec in
                  if (duration <? MIN_SEGMENT_DURATION) || (duration >? MAX_SEGMENT_DURATION)
                  then Ok None
                  else if negb (fle fzero relevance_score && fle relevance_score fone)
                  then Ok None
                  else
                    (* both timestamps parsed, so both are strings *)
                    match start_time, end_time with
                    | PStr st, PStr et =>
                        Ok (Some {| start_time := st; end_time := et; text := text_s;
                                    relevance_score := relevance_score;
                                    reasoning := reasoning |})
                    | _, _ => Raise ValueError
                    end
              end
          end
    | _ => Raise AttributeError
    end).

(** One iteration of the loop of [validate_segments]: the [isinstance]
    guard, the [try] block, and [except (ValueError, KeyError)]. *)
Definition validate_one (seg_data : pyval) : verdict :=
  match seg_data with
  | PDict d =>
      match validate_try d with
      | Ok (Some s) => Accepted s
      | Ok None => Skipped
      | Raise ValueError | Raise KeyError => Skipped
      | Raise e => Uncaught e
      end
  | _ => Skipped
  end.

(** [validate_segments(segments_data)]: an uncaught exception leaves the
    function and the segments validated so far are lost. *)
Fixpoint validate_loop (validated : list TranscriptSegment) (segments_data : list pyval)
  : res (list TranscriptSegment) :=
  match segments_data with
  | [] => Ok validated
  | seg_data :: rest =>
      match validate_one seg_data with
      | Accepted s => validate_loop (validated ++ [s]) rest
      | Skipped => validate_loop validated rest
      | Uncaught e => Raise e
      end
  end.

Definition validate_segments (segments_data : list pyval) : res (list TranscriptSegment) :=
  validate_loop [] segments_data.

End Validation.

(** *** Transcript lines *)

Record entry : Type := {
  e_start_time : string;
  e_end_time : string;
  start_s : Z;
  end_s : Z;
  e_text : string
}.

(** Line boundaries of [str.splitlines] on the ASCII range. *)
Definition is_linebreak (c : ascii) : bool :=
  let n := nat_of_ascii c in
  ((10 <=? n) && (n <=? 13) || (28 <=? n) && (n <=? 30))%nat.

(** [s.splitlines()]: a carriage return followed by a line feed is one
    boundary, and a final boundary opens no empty line. *)
Fixpoint splitlines_aux (cur : string) (s : string) : list string :=
  match s with
  | EmptyString => if String.eqb cur EmptyString then [] else [cur]
  | String c s' =>
      if is_linebreak c then
        match c, s' with
        | "013"%char, String "010"%char s'' => cur :: splitlines_aux EmptyString s''
        | _, _ => cur :: splitlines_aux EmptyString s'
        end
      else splitlines_aux (cur +:+ String c EmptyString) s'
  end.

Definition splitlines (s : string) : list string := splitlines_aux EmptyString s.

(** Two digits, a colon and two digits at the head of a string, and what
    follows them. *)
Definition match_mmss (s : string) : option (string * string) :=
  match s with
  | String a (String b (String ":" (String c (String d rest)))) =>
      if is_digit a && is_digit b && is_digit c && is_digit d
      then Some (String a (String b (String ":" (String c (String d EmptyString)))), rest)
      else None
  | _ => None
  end.

(** [pattern.match(line)] for the transcript-line pattern, on a string
    without line breaks: an opening bracket, two digits, a colon and two
    digits, a dash between optional whitespace, the same again, a closing
    bracket, optional whitespace, and the rest of the line.  The result is
    the three groups. *)
Definition match_line (line : string) : option (string * string * string) :=
  match line with
  | String "[" r0 =>
      match match_mmss r0 with
      | Some (start, r1) =>
          match lstrip r1 with
          | String "-" r2 =>
              match match_mmss (lstrip r2) with
              | Some (end_, String "]" r3) => Some (start, end_, lstrip r3)
              | _ => None
              end
          | _ => None
          end
      | None => None
      end
  | _ => None
  end.

(** The body of the loop of [_parse_transcript_lines] for one line. *)
Definition parse_line (line : string) : option entry :=
  match match_line (strip line) with
  | Some (start, end_, text) =>
      match parse_timestamp_to_seconds (PStr start), parse_timestamp_to_seconds (PStr end_) with
      | Some start_s, Some end_s =>
          if end_s <=? start_s then None
          else Some {| e_start_time := start; e_end_time := end_;
                       start_s := start_s; end_s := end_s; e_text := text |}
      | _, _ => None
      end
  | None => None
  end.

(** [_parse_transcript_lines(transcript)] *)
Definition _parse_transcript_lines (transcript : string) : list entry :=
  omap parse_line (splitlines transcript).

(** *** Fallback expansion *)

Section Expansion.
Context `{Builtins}.

(** What the [try] block at the head of the expansion loop extracts. *)
Record seed : Type := {
  base_text : pyval;
  score : pyfloat;
  seed_reasoning : pyval;
  seed_start_s : Z;
  seed_end_s : Z
}.

(** The [try] block of the expansion loop; [except Exception: continue] is
    [None]. *)
Definition expand_try (seg : pyval) : option seed :=
  match seg with
  | PDict d =>
      match dict_get d "start_time" (PStr EmptyString), dict_get d "end_time" (PStr EmptyString) with
      | PStr seg_start, PStr seg_end =>
          match py_float (dict_get d "relevance_score" (PFloat (FFin (8 # 10)))) with
          | Ok score =>
              match parse_timestamp_to_seconds (PStr (strip seg_start)),
                    parse_timestamp_to_seconds (PStr (strip seg_end)) with
              | Some start_s, Some end_s =>
                  Some {| base_text := dict_get d "text" (PStr EmptyString);
                          score := score;
                          seed_reasoning := dict_get d "reasoning" (PStr "Engaging segment");
                          seed_start_s := start_s;
                          seed_end_s := end_s |}
              | _, _ => None
              end
          | Raise _ => None
          end
      | _, _ => None
      end
  | _ => None
  end.

(** The first entry whose start is at or after [start_s - 1], with the
    entries that follow it: [entries[start_idx]] and
    [entries[start_idx + 1:]]. *)
Fixpoint find_start (entries : list entry) (start_s : Z) : option (entry * list entry) :=
  match entries with
  | [] => None
  | e :: rest =>
      if Ai.start_s e >=? start_s - 1 then Some (e, rest)
      else find_start rest start_s
  end.

(** The [while] loop: [rest] is [entries[j:]]. *)
Fixpoint expand_loop (new_start_s new_end_s : Z) (combined_texts : list string)
    (rest : list entry) : Z * list string :=
  match rest with
  | [] => (new_end_s, combined_texts)
  | e :: rest' =>
      if new_end_s - new_start_s <? MIN_SEGMENT_DURATION then
        let combined_texts := combined_texts ++ [e_text e] in
        let new_end_s := end_s e in
        if new_end_s - new_start_s >? MAX_SEGMENT_DURATION
        then (new_end_s, combined_texts)
        else expand_loop new_start_s new_end_s combined_texts rest'
      else (new_end_s, combined_texts)
  end.

(** [f"{s//60:02d}:{s%60:02d}"] *)
Definition mmss (s : Z) : string := fmt_02d (s / 60) +:+ ":" +:+ fmt_02d (s mod 60).

(** One iteration of the expansion loop.  [Ok None] is [continue];
    concatenating a non-string [base_text] raises outside the [try]. *)
Definition expand_one (entries : list entry) (seg : pyval) : res (option pyval) :=
  match expand_try seg with
  | None => Ok None
  | Some sd =>
      match find_start entries (seed_start_s sd) with
      | None => Ok None
      | Some (e0, rest) =>
          let new_start_s := start_s e0 in
          let '(new_end_s, combined_texts) :=
            expand_loop new_start_s (end_s e0) [e_text e0] rest in
          let new_duration := new_end_s - new_start_s in
          if (new_duration <? MIN_SEGMENT_DURATION)
             || (new_duration >? MAX_SEGMENT_DURATION + 2)
          then Ok None
          else
            match base_text sd with
            | PStr bt =>
                Ok (Some (PDict
                  (<["start_time" := PStr (mmss new_start_s)]>
                  (<["end_time" := PStr (mmss new_end_s)]>
                  (<["text" := PStr (strip (bt +:+ " " +:+ join " " combined_texts))]>
                  (<["relevance_score" := PFloat (score sd)]>
                  (<["reasoning" := seed_reasoning sd]> ∅)))))))
            | _ => Raise TypeError
            end
      end
  end.

Fixpoint expand_all (entries : list entry) (segs : list pyval) : res (list pyval) :=
  match segs with
  | [] => Ok []
  | seg :: rest =>
      bind (expand_one entries seg) (fun o =>
      bind (expand_all entries rest) (fun tl =>
      Ok (match o with Some d => d :: tl | None => tl end)))
  end.

(** [_expand_segments_with_transcript(transcript, segments_data)].
    Iterating a string or a dict yields strings, which the [try] block
    skips; iterating any other non-list raises [TypeError]. *)
Definition _expand_segments_with_transcript (transcript : string) (segments_data : pyval)
  : res (list pyval) :=
  let entries := _parse_transcript_lines transcript in
  match entries with
  | [] => Ok []
  | _ =>
      match segments_data with
      | PList l => expand_all entries l
      | PStr _ | PDict _ => Ok []
      | PNone | PBool _ | PInt _ | PFloat _ => Raise TypeError
      end
  end.

End Expansion.

(** *** JSON recovery *)

(** [len(v)] *)
Definition py_len (v : pyval) : res nat :=
  match v with
  | PStr s => Ok (String.length s)
  | PList l => Ok (length l)
  | PDict d => Ok (size d)
  | PNone | PBool _ | PInt _ | PFloat _ => Raise TypeError
  end.

(** Three backticks at the head of a string, and what follows. *)
Definition after_fence (s : string) : option string :=
  match s with
  | String "`" (String "`" (String "`" r)) => Some r
  | _ => None
  end.

(** The lazy group of the code-block pattern, after its opening brace: the
    shortest stretch that ends in a closing brace followed by optional
    whitespace and a fence.  Returns the group and the text after the
    fence. *)
Fixpoint lazy_body (acc : string) (body : string) : option (string * string) :=
  match body with
  | EmptyString => None
  | String c body' =>
      let acc' := acc +:+ String c EmptyString in
      if Ascii.eqb c "}" then
        match after_fence (lstrip body') with
        | Some rest => Some (acc', rest)
        | None => lazy_body acc' body'
        end
      else lazy_body acc' body'
  end.

(** The pattern after the optional language tag: whitespace, then the
    braced group. *)
Definition match_group (r : string) : option (string * string) :=
  match lstrip r with
  | String "{" body => lazy_body "{" body
  | _ => None
  end.

(** One match of the code-block pattern at the head of [s]: a fence, an
    optional [json] tag, whitespace, the group, whitespace, a fence. *)
Definition match_block (s : string) : option (string * string) :=
  match after_fence s with
  | Some r =>
      match r with
      | String "j" (String "s" (String "o" (String "n" r'))) =>
          match match_group r' with
          | Some m => Some m
          | None => match_group r
          end
      | _ => match_group r
      end
  | None => None
  end.

(** [re.findall(json_block_pattern, text, re.DOTALL)]: leftmost
    non-overlapping matches.  Every step consumes a character, so the length
    of the text plus one is enough fuel. *)
Fixpoint findall_from (fuel : nat) (s : string) : list string :=
  match fuel with
  | O => []
  | S fuel' =>
      match s with
      | EmptyString => []
      | String _ s' =>
          match match_block s with
          | Some (g, rest) => g :: findall_from fuel' rest
          | None => findall_from fuel' s'
          end
      end
  end.

Definition findall_blocks (text : string) : list string :=
  findall_from (S (String.length text)) text.

(** [text[text.find(open_brace):]], or [None] without an opening brace. *)
Fixpoint from_first_brace (s : string) : option string :=
  match s with
  | EmptyString => None
  | String c s' => if Ascii.eqb c "{" then Some s else from_first_brace s'
  end.

Section Recovery.
Context `{Builtins}.

(** The statements between a successful [json.loads] and [return result]
    in the direct parse and in the brace scan: they take [len] of the
    value under [most_relevant_segments] when the result is a dict with
    that key. *)
Definition count_segments (result : pyval) : res unit :=
  match result with
  | PDict d =>
      match d !! "most_relevant_segments" with
      | Some v => bind (py_len v) (fun _ => Ok tt)
      | None => Ok tt
      end
  | _ => Ok tt
  end.

(** The loop over the code blocks. *)
Fixpoint try_blocks (i : nat) (matches : list string) : option pyval * list log_event :=
  match matches with
  | [] => (None, [])
  | m :: rest =>
      match json_loads (strip m) with
      | Some result => (Some result, [CodeBlockOk i])
      | None =>
          let '(r, lg) := try_blocks (S i) rest in
          (r, CodeBlockFailed i :: lg)
      end
  end.

(** The brace scan: [prefix] is [text[start:i]], [rest] is [text[i:]]. *)
Fixpoint brace_scan (depth : Z) (end_positions : nat) (prefix rest : string)
  : option pyval * list log_event :=
  match rest with
  | EmptyString => (None, [ExtractFailed end_positions])
  | String c rest' =>
      let prefix' := prefix +:+ String c EmptyString in
      if Ascii.eqb c "{" then brace_scan (depth + 1) end_positions prefix' rest'
      else if Ascii.eqb c "}" then
        let depth := depth - 1 in
        if depth =? 0 then
          match json_loads prefix' with
          | Some result =>
              match count_segments result with
              | Ok _ => (Some result, [BraceParseOk])
              | Raise _ =>
                  let '(r, lg) := brace_scan depth (S end_positions) prefix' rest' in
                  (r, BraceParseOk :: BraceParseFailed :: lg)
              end
          | None =>
              let '(r, lg) := brace_scan depth (S end_positions) prefix' rest' in
              (r, BraceParseFailed :: lg)
          end
        else brace_scan depth end_positions prefix' rest'
      else brace_scan depth end_positions prefix' rest'
  end.

(** The third strategy, with the entries written when it gives up. *)
Definition scan_braces (text : string) : option pyval * list log_event :=
  match from_first_brace text with
  | None => (None, [NoOpeningBrace; FullResponseText text])
  | Some from_start =>
      let '(r, lg) := brace_scan 0 0 EmptyString from_start in
      match r with
      | Some _ => (r, BraceFound :: lg)
      | None => (None, BraceFound :: lg ++ [FullResponseText text])
      end
  end.

(** The second strategy followed by the third. *)
Definition blocks_then_braces (text : string) : option pyval * list log_event :=
  match findall_blocks text with
  | [] => scan_braces text
  | matches =>
      let '(r, lg) := try_blocks 1 matches in
      match r with
      | Some _ => (r, CodeBlocksFound (length matches) :: lg)
      | None =>
          let '(r', lg') := scan_braces text in
          (r', CodeBlocksFound (length matches) :: lg ++ lg')
      end
  end.

(** [extract_json_from_text(text)]; [None] is Python's [None]. *)
Definition extract_json_from_text (text : string) : option pyval * list log_event :=
  if String.eqb text EmptyString then (None, [NoTextProvided])
  else
    match json_loads (strip text) with
    | Some result =>
        match count_segments result with
        | Ok _ => (Some result, [DirectParseOk])
        | Raise _ =>
            let '(r, lg) := blocks_then_braces text in
            (r, DirectParseOk :: DirectParseUnexpected :: lg)
        end
    | None =>
        let '(r, lg) := blocks_then_braces text in
        (r, DirectParseFailed :: lg)
    end.

End Recovery.

(** *** Transport *)

(** What [session.post] does on one attempt. *)
Inductive post_outcome : Type :=
| PostTimeout                                (* [requests.exceptions.Timeout] *)
| PostConnectionError                        (* [requests.exceptions.ConnectionError] *)
| PostOtherError                             (* any other exception *)
| PostResponse (status : Z) (body : string). (* a response came back *)

Inductive attempt_result : Type :=
| GotText (response_text : string)
| EmptyResponse
| TimedOut
| ConnectionLost
| HTTPError (status : Z)
| OtherError.

Section Transport.
Context `{Builtins}.

(** The inner [try] block of one attempt of [call_ollama], classified by
    the handler that receives its outcome. *)
Definition attempt_once (o : post_outcome) : attempt_result :=
  match o with
  | PostTimeout => TimedOut
  | PostConnectionError => ConnectionLost
  | PostOtherError => OtherError
  | PostResponse status body =>
      (* [response.raise_for_status()] *)
      if (400 <=? status) && (status <? 600) then HTTPError status
      else
        let result :=
          match json_loads body with
          | Some v => v
          | None => PDict {[ "response" := PStr (strip body) ]}
          end in
        let response_text : res string :=
          if truthy result then
            match result with
            | PDict d =>
                match dict_get d "response" (PStr EmptyString) with
                | PStr t => Ok (strip t)
                | _ => Raise AttributeError
                end
            | _ => Raise AttributeError
            end
          else Ok (strip body) in
        match response_text with
        | Ok t => if String.eqb t EmptyString then EmptyResponse else GotText t
        | Raise _ => OtherError
        end
  end.

(** The loop [for attempt in range(max_retries + 1)]; [remaining] is the
    number of iterations still to run. *)
Fixpoint call_loop (env : nat -> post_outcome) (max_retries attempt remaining : nat)
  : option string * list log_event :=
  match remaining with
  | O => (None, [])
  | S remaining' =>
      let pre := if (0 <? attempt)%nat then [Slept (5 * 60)] else [] in
      match attempt_once (env attempt) with
      | GotText t => (Some t, pre ++ [Posted attempt])
      | _ =>
          if (attempt <? max_retries)%nat then
            let '(r, lg) := call_loop env max_retries (S attempt) remaining' in
            (r, pre ++ Posted attempt :: lg)
          else (None, pre ++ [Posted attempt])
      end
  end.

(** [call_ollama(prompt, max_retries)]; the server is [env], which gives
    the outcome of each attempt. *)
Definition call_ollama (env : nat -> post_outcome) (max_retries : nat)
  : option string * list log_event :=
  call_loop env max_retries 0 (S max_retries).

End Transport.

(** *** The analysis *)

Section Analysis.
Context `{Builtins}.

Definition empty_analysis (s : summary_text) : TranscriptAnalysis :=
  {| most_relevant_segments := []; summary := s; key_topics := [] |}.

(** The scan of the alternative keys in [validate_and_fix_json_data]. *)
Fixpoint alternative_segments (d : gmap string pyval) (keys : list string) (dflt : pyval)
  : res pyval :=
  match keys with
  | [] => Ok dflt
  | alt_key :: keys' =>
      match d !! alt_key with
      | Some v => bind (py_len v) (fun _ => Ok v)
      | None => alternative_segments d keys' dflt
      end
  end.

(** The [try] block of [validate_and_fix_json_data]. *)
Definition validate_and_fix_try (json_data : pyval) : res TranscriptAnalysis :=
  match json_data with
  | PDict d =>
      let segments_data := dict_get d "most_relevant_segments" (PList []) in
      (* [not segments_data or len(segments_data) == 0] *)
      bind (if negb (truthy segments_data) then Ok true
            else bind (py_len segments_data) (fun n => Ok (n =? 0)%nat)) (fun no_segments =>
      bind (if no_segments : bool
            then alternative_segments d
                   ["segments"; "clips"; "relevant_segments"; "top_segments"] segments_data
            else Ok segments_data) (fun segments_data =>
      let segments_list := match segments_data with PList l => l | _ => [] end in
      bind (validate_segments segments_list) (fun validated_segments =>
      let summary := dict_get d "summary" (PStr "Video analysis completed") in
      let key_topics := match dict_get d "key_topics" (PList []) with PList l => l | _ => [] end in
      (* [summary[:200]] in the log entry *)
      match summary with
      | PStr _ | PList _ =>
          Ok {| most_relevant_segments := validated_segments;
                summary := FromModel summary;
                key_topics := key_topics |}
      | _ => Raise TypeError
      end)))
  | _ => Raise AttributeError
  end.

(** [validate_and_fix_json_data(json_data)] *)
Definition validate_and_fix_json_data (json_data : pyval) : TranscriptAnalysis :=
  match validate_and_fix_try json_data with
  | Ok a => a
  | Raise _ => empty_analysis ValidationFailed
  end.

(** [l.sort(key=lambda s: s.relevance_score, reverse=True)]: a stable sort,
    larger scores first, equal scores in their original order. *)
Fixpoint insert_by_score (x : TranscriptSegment) (l : list TranscriptSegment)
  : list TranscriptSegment :=
  match l with
  | [] => [x]
  | y :: l' =>
      if flt (relevance_score x) (relevance_score y) then y :: insert_by_score x l'
      else x :: l
  end.

Fixpoint sort_by_score (l : list TranscriptSegment) : list TranscriptSegment :=
  match l with
  | [] => []
  | x :: l' => insert_by_score x (sort_by_score l')
  end.

Definition sort_and_trim (l : list TranscriptSegment) : list TranscriptSegment :=
  take MAX_SEGMENTS (sort_by_score l).

Definition segment_key (s : TranscriptSegment) : string * string :=
  (start_time s, end_time s).

(** The merge loop of the fallback: a revalidated segment is appended unless
    its time window is already present. *)
Fixpoint merge_new (existing_keys : gset (string * string)) (segments : list TranscriptSegment)
    (revalidated : list TranscriptSegment) : list TranscriptSegment :=
  match revalidated with
  | [] => segments
  | s :: rest =>
      let key := segment_key s in
      if bool_decide (key ∈ existing_keys) then merge_new existing_keys segments rest
      else merge_new ({[ key ]} ∪ existing_keys) (segments ++ [s]) rest
  end.

(** [json_data.get("most_relevant_segments", []) if isinstance(json_data,
    dict) else []] *)
Definition original_segments (json_data : pyval) : pyval :=
  match json_data with
  | PDict d => dict_get d "most_relevant_segments" (PList [])
  | _ => PList []
  end.

(** The [try] block of the fallback. *)
Definition fallback_try (transcript : string) (json_data : pyval)
    (segments : list TranscriptSegment) : res (list TranscriptSegment * list log_event) :=
  bind (_expand_segments_with_transcript transcript (original_segments json_data))
    (fun expanded_segments =>
  bind (validate_segments expanded_segments) (fun revalidated =>
  let existing_keys : gset (string * string) := list_to_set (segment_key <$> segments) in
  let merged := sort_and_trim (merge_new existing_keys segments revalidated) in
  Ok (merged, [FallbackRevalidated (length revalidated); AfterFallback (length merged)]))).

(** Steps 4 and 5 of [get_most_relevant_parts_by_transcript], inside its
    [try] block: from the raw response to the analysis. *)
Definition analyse_response (transcript raw_text : string)
  : (failure + TranscriptAnalysis) * list log_event :=
  let '(json_data, lg) := extract_json_from_text raw_text in
  match json_data with
  | None => (inl NoValidJson, lg ++ [FullResponseText raw_text])
  | Some json_data =>
      if negb (truthy json_data) then (inl NoValidJson, lg ++ [FullResponseText raw_text])
      else
        let checked :=
          match json_data with
          | PDict d => bind (py_len (dict_get d "most_relevant_segments" (PList []))) (fun _ => Ok tt)
          | _ => Ok tt
          end in
        match checked with
        | Raise e => (inl (Exception e), lg)
        | Ok _ =>
            let analysis := validate_and_fix_json_data json_data in
            let segments := sort_and_trim (most_relevant_segments analysis) in
            if (length segments <? MIN_SEGMENTS)%nat then
              let lg := lg ++ [OnlyFound (length segments); FallbackAttempt; ExpanderStart] in
              match fallback_try transcript json_data segments with
              | Ok (merged, lg') =>
                  (inr {| most_relevant_segments := merged;
                          summary := summary analysis;
                          key_topics := key_topics analysis |},
                   lg ++ lg' ++ [Selected (length merged)])
              | Raise e =>
                  (inr {| most_relevant_segments := segments;
                          summary := summary analysis;
                          key_topics := key_topics analysis |},
                   lg ++ [FallbackFailed e; Selected (length segments)])
              end
            else
              (inr {| most_relevant_segments := segments;
                      summary := summary analysis;
                      key_topics := key_topics analysis |},
               lg ++ [Selected (length segments)])
        end
  end.

(** [get_most_relevant_parts_by_transcript(transcript)].  The connection
    test is the boolean [connection_ok]; the server is [env]. *)
Definition get_most_relevant_parts_by_transcript (connection_ok : bool)
    (env : nat -> post_outcome) (transcript : string) : TranscriptAnalysis * list log_event :=
  if String.eqb transcript EmptyString || String.eqb (strip transcript) EmptyString then
    (empty_analysis NoTranscriptProvided, [EmptyTranscript])
  else if negb connection_ok then
    (empty_analysis ConnectionTestFailed, [ConnectionFailed])
  else
    let '(raw_text, lg) := call_ollama env 3 in
    match raw_text with
    | None => (empty_analysis (AnalysisFailed NoResponse), lg ++ [AnalysisError NoResponse])
    | Some raw_text =>
        match analyse_response transcript raw_text with
        | (inr analysis, lg') => (analysis, lg ++ lg')
        | (inl cause, lg') =>
            (empty_analysis (AnalysisFailed cause), lg ++ lg' ++ [AnalysisError cause])
        end
    end.

End Analysis.

End Ai.

(** ** backend/src/video_utils.py: subtitle layer and clip index *)

Module VideoUtils.

Export VideoUtilsTime.

(** A number as the clip loop handles it: an [int] or a [float]. *)
Inductive num : Type :=
| NInt (z : Z)
| NFloat (f : pyfloat).

Definition num_float (a : num) : res pyfloat :=
  match a with
  | NInt z => float_of_int z
  | NFloat f => Ok f
  end.

(** [a - b] *)
Definition num_sub (a b : num) : res num :=
  match a, b with
  | NInt x, NInt y => Ok (NInt (x - y))
  | _, _ =>
      bind (num_float a) (fun fa =>
      bind (num_float b) (fun fb => Ok (NFloat (fsub fa fb))))
  end.

(** [a <= 0] *)
Definition num_nonpos (a : num) : bool :=
  match a with
  | NInt z => z <=? 0
  | NFloat f => fle f fzero
  end.

(** A word of the transcript cache, as [cache_transcript_data] writes it:
    times are integers in milliseconds. *)
Record word : Type := {
  w_text : string;
  w_start : Z;
  w_end : Z;
  w_confidence : Q
}.

(** A word on the clip timeline, times in seconds. *)
Record relevant_word : Type := {
  r_text : string;
  r_start : Q;
  r_end : Q;
  r_confidence : Q
}.


Record clip_info : Type := {
  clip_id : Z;
  filename : string;
  path : string;
  ci_start_time : string;
  ci_end_time : string;
  duration : num;
  ci_text : pyval;
  ci_relevance_score : pyval;
  ci_reasoning : pyval
}.

(** The media side of the renderer, which lives outside the repository. *)
Class Renderer : Type := {
  (** [TextClip(txt, method=...)] and the positioning of the clip succeed. *)
  text_clip : string -> string -> bool;
  (** The body of [create_optimized_clip] after its duration guard: opening
      the media, composing and encoding.  [false] when it returns [False] or
      raises. *)
  render_clip : string -> num -> num -> string -> bool
}.

(** [int(x)] on a float: truncation towards zero. *)
Definition int_of_Q (x : Q) : Z := Z.quot (Qnum x) (Z.pos (Qden x)).

Definition qmin (a b : Q) : Q := if Qle_bool a b then a else b.
Definition qlt (a b : Q) : bool := negb (Qle_bool b a).

(** [x / 1000.0] for an integer [x] *)
Definition ms_to_s (x : Z) : Q := (inject_Z x / 1000)%Q.

Section Subtitles.
Context `{Renderer}.


(** The slices [relevant_words[i:i + 3]] for [i = 0, 3, 6, ...]. *)
Fixpoint chunks3 (l : list relevant_word) : list (list relevant_word) :=
  match l with
  | a :: b :: c :: rest => [a; b; c] :: chunks3 rest
  | [] => []
  | short => [short]
  end.



(** The clip duration on the timeline of the subtitles, in seconds. *)
Definition clip_duration (clip_start clip_end : Q) : Q :=
  ms_to_s (int_of_Q (clip_end * 1000) - int_of_Q (clip_start * 1000)).

End Subtitles.

Section Clips.
Context `{Builtins} `{Renderer}.

(** [parse_timestamp_to_seconds(timestamp_str)] of this module, on a
    string.  Failures of every kind are [None]. *)
Definition parse_timestamp_to_seconds (timestamp_str : string) : option num :=
  let ts := strip timestamp_str in
  if contains ":" ts then
    match split_on ":" ts with
    | [p0; p1] =>
        match int_of_str p0, int_of_str p1 with
        | Some minutes, Some seconds => Some (NInt (minutes * 60 + seconds))
        | _, _ => None
        end
    | [p0; p1; p2] =>
        match int_of_str p0, int_of_str p1, int_of_str p2 with
        | Some hours, Some minutes, Some seconds =>
            Some (NInt (hours * 3600 + minutes * 60 + seconds))
        | _, _, _ => None
        end
    | _ => None
    end
  else option_map NFloat (float_of_str ts).

(** [create_optimized_clip]: the duration guard, then the media work. *)
Definition create_optimized_clip (video_path : string) (start_time end_time : num)
    (output_path : string) : bool :=
  match num_sub end_time start_time with
  | Ok d => if num_nonpos d then false else render_clip video_path start_time end_time output_path
  | Raise _ => false
  end.

(** The body of the loop of [create_clips_from_segments] for the segment
    at index [i]; [None] when the segment is skipped, by [continue], by a
    failed render or by the [except] clause.  A timestamp that is not a
    string is skipped too: it either fails to parse or has no [replace]. *)
Definition clip_of_segment (video_path output_dir : string) (i : nat) (segment : pyval)
  : option clip_info :=
  match segment with
  | PDict d =>
      match d !! "start_time", d !! "end_time" with
      | Some (PStr st), Some (PStr et) =>
          match parse_timestamp_to_seconds st, parse_timestamp_to_seconds et with
          | Some start_seconds, Some end_seconds =>
              match num_sub end_seconds start_seconds with
              | Ok duration =>
                  if num_nonpos duration then None
                  else
                    let clip_filename :=
                      "clip_" +:+ str_of_Z (Z.of_nat i + 1) +:+ "_" +:+ remove_char ":" st
                      +:+ "-" +:+ remove_char ":" et +:+ ".mp4" in
                    let clip_path := output_dir +:+ "/" +:+ clip_filename in
                    if create_optimized_clip video_path start_seconds end_seconds clip_path then
                      match d !! "text", d !! "relevance_score", d !! "reasoning" with
                      | Some text, Some relevance_score, Some reasoning =>
                          Some {| clip_id := Z.of_nat i + 1;
                                  filename := clip_filename;
                                  path := clip_path;
                                  ci_start_time := st;
                                  ci_end_time := et;
                                  duration := duration;
                                  ci_text := text;
                                  ci_relevance_score := relevance_score;
                                  ci_reasoning := reasoning |}
                      | _, _, _ => None
                      end
                    else None
              | Raise _ => None
              end
          | _, _ => None
          end
      | _, _ => None
      end
  | _ => None
  end.

(** The loop [for i, segment in enumerate(segments)], from index [i]. *)
Fixpoint clips_from (video_path output_dir : string) (i : nat) (segments : list pyval)
  : list clip_info :=
  match segments with
  | [] => []
  | segment :: rest =>
      match clip_of_segment video_path output_dir i segment with
      | Some info => info :: clips_from video_path output_dir (S i) rest
      | None => clips_from video_path output_dir (S i) rest
      end
  end.

(** [create_clips_from_segments(video_path, segments, output_dir)] *)
Definition create_clips_from_segments (video_path : string) (segments : list pyval)
    (output_dir : string) : list clip_info :=
  clips_from video_path output_dir 0 segments.

End Clips.

End VideoUtils.

(** ** Vocabulary of the statements *)

Module Vocabulary.

Import Ai.

Fixpoint all_chars (P : ascii -> bool) (s : string) : bool :=
  match s with
  | EmptyString => true
  | String c s' => P c && all_chars P s'
  end.

Definition digits_only : string -> bool := all_chars is_digit.

(** [0.0 <= x <= 1.0] *)
Definition score_in_range (x : pyfloat) : bool := fle fzero x && fle x fone.

(** [MIN_SEGMENT_DURATION <= d <= MAX_SEGMENT_DURATION] *)
Definition duration_in_range (d : Z) : bool :=
  (MIN_SEGMENT_DURATION <=? d) && (d <=? MAX_SEGMENT_DURATION).

(** At least three whitespace-separated tokens. *)
Definition enough_text (t : string) : bool := (3 <=? length (split_ws t))%nat.

(** The segment a candidate contributes, if any. *)
Definition accepted_segment `{Builtins} (seg_data : pyval) : option TranscriptSegment :=
  match validate_one seg_data with
  | Accepted s => Some s
  | _ => None
  end.

(** The running end time of an expansion after [k] further lines. *)
Fixpoint running_end (new_end_s : Z) (rest : list entry) (k : nat) {struct k} : Z :=
  match k, rest with
  | S k', e :: rest' => running_end (end_s e) rest' k'
  | _, _ => new_end_s
  end.


(** An attempt that hands a response text back to the caller. *)
Definition is_text (r : attempt_result) : bool :=
  match r with
  | GotText _ => true
  | _ => false
  end.

(** What [n + 1] consecutive attempts starting with attempt [a] write: a
    sleep of five minutes before every attempt but the very first, then the
    request. *)
Fixpoint attempts_log (a n : nat) : list log_event :=
  (if (0 <? a)%nat then [Slept 300] else [])
  ++ Posted a :: match n with
                 | O => []
                 | S n' => attempts_log (S a) n'
                 end.

(** A segment whose score passed the range check. *)
Definition valid_score (s : TranscriptSegment) : Prop :=
  score_in_range (relevance_score s) = true.

(** [s1] may stand before [s2] in a list sorted by score, descending. *)
Definition score_ge (s1 s2 : TranscriptSegment) : Prop :=
  fle (relevance_score s2) (relevance_score s1) = true.

End Vocabulary.

(** ** Concrete inputs used in examples *)

Module Examples.

Import Ai.

(** The double-quote character. *)
Definition dq : string := String "034" EmptyString.

(** The JSON text of an object with the single member [key], whose value is
    the text [value]. *)
Definition json_member (key value : string) : string :=
  "{" +:+ dq +:+ key +:+ dq +:+ ": " +:+ value +:+ "}".

Definition null_segments_text : string := json_member "most_relevant_segments" "null".
Definition ok_response_text : string := json_member "response" (dq +:+ "ok" +:+ dq).

(** The text of a JSON string. *)
Definition json_string (s : string) : string := dq +:+ s +:+ dq.

(** The response of a model that proposes one segment of ten seconds. *)
Definition short_segment_text : string :=
  json_member "most_relevant_segments"
    ("[{" +:+ json_string "start_time" +:+ ": " +:+ json_string "00:00" +:+ ", "
     +:+ json_string "end_time" +:+ ": " +:+ json_string "00:10" +:+ ", "
     +:+ json_string "text" +:+ ": " +:+ json_string "hook line here" +:+ ", "
     +:+ json_string "relevance_score" +:+ ": 0.9}]").

Definition candidate (start_time end_time text : string) (fields : gmap string pyval)
  : gmap string pyval :=
  <["start_time" := PStr start_time]>
    (<["end_time" := PStr end_time]> (<["text" := PStr text]> fields)).

(** The candidate of [short_segment_text]. *)
Definition candidate_short : pyval :=
  PDict (candidate "00:00" "00:10" "hook line here"
           (<["relevance_score" := PFloat (FFin (9 # 10))]> ∅)).

Definition short_segment_json : pyval :=
  PDict {[ "most_relevant_segments" := PList [candidate_short] ]}.

(** A runtime whose [float] rejects every string and whose [json.loads]
    knows four texts. *)
#[export] Instance toy_builtins : Builtins := {|
  float_of_str := fun _ => None;
  json_loads := fun s =>
    if String.eqb s null_segments_text
    then Some (PDict {[ "most_relevant_segments" := PNone ]})
    else if String.eqb s ok_response_text
    then Some (PDict {[ "response" := PStr "ok" ]})
    else if String.eqb s short_segment_text then Some short_segment_json
    else if String.eqb s "{}" then Some (PDict ∅)
    else None
|}.

(** A well-formed candidate of 45 seconds with score 0.9. *)
Definition candidate_ok : pyval :=
  PDict (candidate "00:10" "00:55" "alpha beta gamma"
           (<["relevance_score" := PFloat (FFin (9 # 10))]>
              (<["reasoning" := PStr "strong hook"]> ∅))).

Definition segment_ok : TranscriptSegment :=
  {| start_time := "00:10"; end_time := "00:55"; text := "alpha beta gamma";
     relevance_score := FFin (9 # 10); reasoning := PStr "strong hook" |}.

(** The same shape with [relevance_score] set to JSON [null]. *)
Definition candidate_null_score : pyval :=
  PDict (candidate "01:00" "01:45" "delta epsilon zeta"
           (<["relevance_score" := PNone]> ∅)).

(** A candidate without [relevance_score] and without [reasoning]. *)
Definition candidate_no_score : gmap string pyval :=
  candidate "02:00" "02:40" "eta theta iota" ∅.

(** A transcript line from [a] to [b] seconds. *)
Definition line (a b : Z) (t : string) : entry :=
  {| e_start_time := mmss a; e_end_time := mmss b; start_s := a; end_s := b; e_text := t |}.

(** The line-feed character. *)
Definition nl : string := String "010" EmptyString.

(** Two lines that reach 45 seconds together. *)
Definition steady_transcript : string :=
  "[00:00 - 00:20] one two three" +:+ nl +:+ "[00:20 - 00:45] four five six".


(** A renderer that cannot rasterise the word [glitch] and cannot render a
    clip that starts at second 100. *)
#[export] Instance toy_renderer : VideoUtils.Renderer := {|
  VideoUtils.text_clip := fun txt _ => negb (String.eqb txt "glitch");
  VideoUtils.render_clip := fun _ start_time _ _ =>
    match start_time with
    | VideoUtils.NInt 100 => false
    | _ => true
    end
|}.

(** A segment as the clip loop receives it. *)
Definition clip_segment (start_time end_time : string) : pyval :=
  PDict (candidate start_time end_time "alpha beta gamma"
           (<["relevance_score" := PFloat (FFin (9 # 10))]>
              (<["reasoning" := PStr "strong hook"]> ∅))).


(** Escaping of a text inside a JSON string: a backslash before every
    double quote. *)
Fixpoint json_escape (s : string) : string :=
  match s with
  | EmptyString => EmptyString
  | String c s' =>
      if Ascii.eqb c "034" then String "092" (String c (json_escape s'))
      else String c (json_escape s')
  end.

(** The JSON text of a candidate with a score of nine tenths. *)
Definition json_candidate (start_time end_time text : string) : string :=
  "{" +:+ json_string "start_time" +:+ ": " +:+ json_string start_time +:+ ", "
  +:+ json_string "end_time" +:+ ": " +:+ json_string end_time +:+ ", "
  +:+ json_string "text" +:+ ": " +:+ json_string text +:+ ", "
  +:+ json_string "relevance_score" +:+ ": 0.9}".

Definition scored_candidate (start_time end_time text : string) : pyval :=
  PDict (candidate start_time end_time text
           (<["relevance_score" := PFloat (FFin (9 # 10))]> ∅)).

(** The response of a model that proposes three segments of 45 seconds. *)
Definition three_segments_text : string :=
  json_member "most_relevant_segments"
    ("[" +:+ json_candidate "00:10" "00:55" "alpha beta gamma" +:+ ", "
     +:+ json_candidate "01:10" "01:55" "delta epsilon zeta" +:+ ", "
     +:+ json_candidate "02:10" "02:55" "eta theta iota" +:+ "]").

Definition three_segments_json : pyval :=
  PDict {[ "most_relevant_segments" :=
             PList [ scored_candidate "00:10" "00:55" "alpha beta gamma";
                     scored_candidate "01:10" "01:55" "delta epsilon zeta";
                     scored_candidate "02:10" "02:55" "eta theta iota" ] ]}.

(** The body of the HTTP response that carries [three_segments_text]. *)
Definition three_segments_body : string :=
  json_member "response" (json_string (json_escape three_segments_text)).

(** A runtime that decodes that body and that response. *)
Definition three_segments_builtins : Builtins := {|
  float_of_str := fun _ => None;
  json_loads := fun s =>
    if String.eqb s three_segments_body
    then Some (PDict {[ "response" := PStr three_segments_text ]})
    else if String.eqb s three_segments_text then Some three_segments_json
    else None
|}.

(** A server that answers every request with that body. *)
Definition three_segments_server : nat -> post_outcome :=
  fun _ => PostResponse 200 three_segments_body.

End Examples.

(** ** backend/src/ai.py: the dict of a segment *)

Module Segments.

Import Ai.


End Segments.

(** ** backend/src/video_utils.py: blur kernel and square crop *)

Module Crop.

(** [round_to_even(value)]: [value - (value % 2)], with Python's remainder,
    which is never negative for the modulus 2. *)
Definition round_to_even (value : Z) : Z := value - value mod 2.

(** The kernel size of [apply_gaussian_blur]: [max(3, int(ksize) | 1)]. *)
Definition blur_kernel (ksize : Z) : Z := Z.max 3 (Z.lor ksize 1).

(** A detection of [detect_faces_in_clip]: centre, area, confidence. *)
Record face : Type := {
  face_x : Z;
  face_y : Z;
  face_area : Z;
  face_confidence : Q
}.

(** [sum(f(face) for face in face_centers)] *)
Definition weighted_sum (f : face -> Q) (face_centers : list face) : Q :=
  fold_left (fun acc fc => (acc + f fc)%Q) face_centers 0%Q.

(** [(original - new) // 2 if original > new else 0] *)
Definition centred (original new : Z) : Z :=
  if original >? new then (original - new) / 2 else 0.

(** [max(0, min(int(weighted - new // 2), original - new))] *)
Definition face_offset (weighted : Q) (original new : Z) : Z :=
  Z.max 0 (Z.min (VideoUtils.int_of_Q (weighted - inject_Z (new / 2))) (original - new)).

(** [detect_optimal_square_crop_region] for a frame of the given size;
    [detected] is what [detect_faces_in_clip] returns, [None] when it
    raises and the [except] clause computes the region. *)
Definition detect_optimal_square_crop_region (original_width original_height : Z)
    (detected : option (list face)) : Z * Z * Z * Z :=
  let crop_size := Z.min original_width original_height in
  let new_width := round_to_even crop_size in
  let new_height := round_to_even crop_size in
  match detected with
  | Some face_centers =>
      let weight := fun fc => (inject_Z (face_area fc) * face_confidence fc)%Q in
      let total_weight := weighted_sum weight face_centers in
      let '(x_offset, y_offset) :=
        match face_centers with
        | [] => (centred original_width new_width, centred original_height new_height)
        | _ =>
            if VideoUtils.qlt 0 total_weight then
              let weighted_x :=
                (weighted_sum (fun fc => inject_Z (face_x fc) * inject_Z (face_area fc)
                                         * face_confidence fc) face_centers
                 / total_weight)%Q in
              let weighted_y :=
                (weighted_sum (fun fc => inject_Z (face_y fc) * inject_Z (face_area fc)
                                         * face_confidence fc) face_centers
                 / total_weight)%Q in
              (face_offset weighted_x original_width new_width,
               face_offset weighted_y original_height new_height)
            else (centred original_width new_width, centred original_height new_height)
        end in
      (round_to_even x_offset, round_to_even y_offset, new_width, new_height)
  | None =>
      let x_offset :=
        if original_width >? new_width
        then round_to_even ((original_width - new_width) / 2) else 0 in
      let y_offset :=
        if original_height >? new_height
        then round_to_even ((original_height - new_height) / 2) else 0 in
      (x_offset, y_offset, new_width, new_height)
  end.

End Crop.

(** ** backend/src/video_utils.py: the lines of the transcript *)

Module Transcriber.

(** A word of a transcribed segment: [word], [start], [end] may be
    missing. *)
Record raw_word : Type := {
  rw_word : option string;
  rw_start : option Q;
  rw_end : option Q
}.

(** A transcribed segment. *)
Record raw_segment : Type := {
  rs_words : list raw_word;
  rs_start : option Q;
  rs_end : option Q;
  rs_text : option string
}.

(** [format_timestamp(seconds)] on a float: [int(seconds // 60)] and
    [int(seconds % 60)]. *)
Definition format_timestamp_float (seconds : Q) : string :=
  let minutes := Qfloor (seconds / 60) in
  let seconds_i := VideoUtils.int_of_Q (seconds - 60 * inject_Z minutes) in
  fmt_02d minutes +:+ ":" +:+ fmt_02d seconds_i.

(** A line before it is written out. *)
Record line : Type := {
  l_start : Q;
  l_end : Q;
  l_words : list string
}.

(** [f"[{start_time} - {end_time}] {text}"] *)
Definition format_line (l : line) : string :=
  "[" +:+ format_timestamp_float (l_start l) +:+ " - "
  +:+ format_timestamp_float (l_end l) +:+ "] " +:+ join " " (l_words l).

(** [(word.get("word") or "").strip()] *)
Definition word_text (w : raw_word) : string :=
  strip (default EmptyString (rw_word w)).

(** [s.endswith(c)] *)
Fixpoint ends_with (c : ascii) (s : string) : bool :=
  match s with
  | EmptyString => false
  | String c' EmptyString => Ascii.eqb c' c
  | String _ s' => ends_with c s'
  end.

Definition ends_sentence (w_text : string) : bool :=
  ends_with "." w_text || ends_with "!" w_text || ends_with "?" w_text.

(** The state of the loop over the words of one segment. *)
Record grouping : Type := {
  current_segment : list string;
  current_start : option Q;
  segment_word_count : Z
}.

Definition fresh : grouping :=
  {| current_segment := []; current_start := None; segment_word_count := 0 |}.

Definition max_words_per_segment : Z := 8.

(** The loop over the words of one segment: the lines it appends and the
    state it ends in. *)
Fixpoint group_words (st : grouping) (words : list raw_word) : list line * grouping :=
  match words with
  | [] => ([], st)
  | word :: rest =>
      let w_text := word_text word in
      match rw_start word, rw_end word with
      | Some w_start, Some w_end =>
          if String.eqb w_text EmptyString then group_words st rest
          else
            let start :=
              match current_start st with
              | None => Some w_start
              | Some cs => Some cs
              end in
            let segment := current_segment st ++ [w_text] in
            let count := segment_word_count st + 1 in
            if (max_words_per_segment <=? count) || ends_sentence w_text then
              let emitted :=
                match segment, start with
                | _ :: _, Some cs => [ {| l_start := cs; l_end := w_end; l_words := segment |} ]
                | _, _ => []
                end in
              let '(lines, st') := group_words fresh rest in
              (emitted ++ lines, st')
            else
              group_words {| current_segment := segment; current_start := start;
                             segment_word_count := count |} rest
      | _, _ => group_words st rest
      end
  end.

(** The last [end] that is present, searching from the back. *)
Definition last_valid_end (words : list raw_word) : option Q :=
  head (omap rw_end (reverse words)).

(** The lines of one segment. *)
Definition segment_lines (segment : raw_segment) : list line :=
  match rs_words segment with
  | [] =>
      let seg_text := strip (default EmptyString (rs_text segment)) in
      match rs_start segment, rs_end segment with
      | Some seg_start, Some seg_end =>
          if String.eqb seg_text EmptyString then []
          else [ {| l_start := seg_start; l_end := seg_end; l_words := [seg_text] |} ]
      | _, _ => []
      end
  | words =>
      let '(lines, st) := group_words fresh words in
      match current_segment st, current_start st with
      | _ :: _, Some cs =>
          match last_valid_end words with
          | Some e =>
              lines ++ [ {| l_start := cs; l_end := e; l_words := current_segment st |} ]
          | None => lines
          end
      | _, _ => lines
      end
  end.

(** The text that [get_video_transcript] returns for the segments of a
    transcription. *)
Definition transcript_text (segments : list raw_segment) : string :=
  join (String "010" EmptyString) (format_line <$> (segments ≫= segment_lines)).

End Transcriber.

(** ** backend/src/video_utils.py: splitting by duration *)

Module Splitter.

(** A record of the index; the file name and the path are formatted from
    the same numbers and are left out. *)
Record split_clip : Type := {
  clip_number : Z;
  sc_start : Q;
  sc_end : Q;
  sc_duration : Q
}.

(** The loop of [split_video_by_duration]; [write] tells whether
    [write_videofile] succeeds for a clip.  [None] is a loop that is still
    running when the fuel is used up. *)
Fixpoint split_loop (fuel : nat) (write : Z -> Q -> Q -> bool) (duration_seconds : Z)
    (total_duration current_start : Q) (clip_count : Z) : option (list split_clip) :=
  match fuel with
  | O => None
  | S fuel' =>
      if VideoUtils.qlt current_start total_duration then
        let current_end :=
          VideoUtils.qmin (current_start + inject_Z duration_seconds) total_duration in
        let clip_duration := (current_end - current_start)%Q in
        if Qle_bool clip_duration 0 then Some []
        else
          let clip_count := clip_count + 1 in
          match split_loop fuel' write duration_seconds total_duration current_end clip_count with
          | Some rest =>
              Some (if write clip_count current_start current_end
                    then {| clip_number := clip_count; sc_start := current_start;
                            sc_end := current_end; sc_duration := clip_duration |} :: rest
                    else rest)
          | None => None
          end
      else Some []
  end.

Definition split_video_by_duration (fuel : nat) (write : Z -> Q -> Q -> bool)
    (duration_seconds : Z) (total_duration : Q) : option (list split_clip) :=
  split_loop fuel write duration_seconds total_duration 0 0.

(** The loop of [split_video_by_duration_ffmpeg]; [run] tells whether the
    [ffmpeg] process returns code zero. *)
Fixpoint split_loop_ffmpeg (fuel : nat) (run : Z -> Q -> Q -> bool) (duration_seconds : Z)
    (total_duration current_start : Q) (clip_count : Z) : option (list split_clip) :=
  match fuel with
  | O => None
  | S fuel' =>
      if VideoUtils.qlt current_start total_duration then
        let clip_count := clip_count + 1 in
        let current_end :=
          VideoUtils.qmin (current_start + inject_Z duration_seconds) total_duration in
        let clip_duration := (current_end - current_start)%Q in
        match split_loop_ffmpeg fuel' run duration_seconds total_duration current_end
                clip_count with
        | Some rest =>
            Some (if run clip_count current_start clip_duration
                  then {| clip_number := clip_count; sc_start := current_start;
                          sc_end := current_end; sc_duration := clip_duration |} :: rest
                  else rest)
        | None => None
        end
      else Some []
  end.

Definition split_video_by_duration_ffmpeg (fuel : nat) (run : Z -> Q -> Q -> bool)
    (duration_seconds : Z) (total_duration : Q) : option (list split_clip) :=
  split_loop_ffmpeg fuel run duration_seconds total_duration 0 0.

End Splitter.

(** ** backend/src/video_utils.py: clips with transitions *)

Module Transitions.

(** The transition files and the tool that joins two clips, both outside
    the repository. *)
Class TransitionTools : Type := {
  (** [get_available_transitions()] *)
  available_transitions : list string;
  (** [apply_transition_effect(prev, current, transition, output)] *)
  apply_transition_effect : string -> string -> string -> string -> bool
}.

(** A record of the enhanced index; [has_transition] is [false] for a
    record without that key. *)
Record enhanced_clip : Type := {
  ec_info : VideoUtils.clip_info;
  has_transition : bool
}.

Definition plain (c : VideoUtils.clip_info) : enhanced_clip :=
  {| ec_info := c; has_transition := false |}.

Definition renamed (c : VideoUtils.clip_info) (filename path : string) : VideoUtils.clip_info :=
  {| VideoUtils.clip_id := VideoUtils.clip_id c;
     VideoUtils.filename := filename;
     VideoUtils.path := path;
     VideoUtils.ci_start_time := VideoUtils.ci_start_time c;
     VideoUtils.ci_end_time := VideoUtils.ci_end_time c;
     VideoUtils.duration := VideoUtils.duration c;
     VideoUtils.ci_text := VideoUtils.ci_text c;
     VideoUtils.ci_relevance_score := VideoUtils.ci_relevance_score c;
     VideoUtils.ci_reasoning := VideoUtils.ci_reasoning c |}.

Section WithTools.
Context `{Builtins} `{VideoUtils.Renderer} `{TransitionTools}.

(** The loop over [enumerate(clips_info)] from index [i >= 1]; [prev] is
    [clips_info[i - 1]]. *)
Fixpoint enhance_from (output_dir : string) (transitions : list string) (i : nat)
    (prev : VideoUtils.clip_info) (clips : list VideoUtils.clip_info) : list enhanced_clip :=
  match clips with
  | [] => []
  | clip_info :: rest =>
      let transition_path :=
        default EmptyString (transitions !! (i mod length transitions)%nat) in
      let transition_filename :=
        "transition_" +:+ str_of_Z (Z.of_nat i) +:+ "_" +:+ VideoUtils.filename clip_info in
      let transition_output_path :=
        output_dir +:+ "/with_transitions/" +:+ transition_filename in
      (if apply_transition_effect (VideoUtils.path prev) (VideoUtils.path clip_info)
            transition_path transition_output_path
       then {| ec_info := renamed clip_info transition_filename transition_output_path;
               has_transition := true |}
       else plain clip_info)
      :: enhance_from output_dir transitions (S i) clip_info rest
  end.

(** [create_clips_with_transitions(video_path, segments, output_dir)] *)
Definition create_clips_with_transitions (video_path : string) (segments : list pyval)
    (output_dir : string) : list enhanced_clip :=
  let clips_info := VideoUtils.create_clips_from_segments video_path segments output_dir in
  if (length clips_info <? 2)%nat then plain <$> clips_info
  else
    match available_transitions with
    | [] => plain <$> clips_info
    | transitions =>
        match clips_info with
        | [] => []
        | first :: rest => plain first :: enhance_from output_dir transitions 1 first rest
        end
    end.

End WithTools.

End Transitions.

(** ** Vocabulary of the further properties *)

Module Invariants.

Import Ai Vocabulary.

(** What the validator checks of a segment: the score range, timestamps
    that parse, a duration within the limits, three tokens of text. *)
Definition within_bounds (s : TranscriptSegment) : Prop :=
  score_in_range (relevance_score s) = true /\
  exists a b : Z,
    parse_timestamp_to_seconds (PStr (start_time s)) = Some a /\
    parse_timestamp_to_seconds (PStr (end_time s)) = Some b /\
    0 <= a /\ duration_in_range (b - a) = true /\ enough_text (text s) = true.

(** A transcript line that runs forward from a non-negative start. *)
Definition forward_window (e : entry) : Prop :=
  parse_timestamp_to_seconds (PStr (e_start_time e)) = Some (start_s e) /\
  parse_timestamp_to_seconds (PStr (e_end_time e)) = Some (end_s e) /\
  0 <= start_s e < end_s e.

End Invariants.

(** ** Vocabulary of the transcript lines *)

Module LineFacts.

Import Transcriber.

(** The text of a word that the grouping loop keeps: one with a start, an
    end, and a text that is not blank. *)
Definition kept_text (w : raw_word) : option string :=
  match rw_start w, rw_end w with
  | Some _, Some _ =>
      if String.eqb (word_text w) EmptyString then None else Some (word_text w)
  | _, _ => None
  end.

(** The words a line may consist of: at most seven that do not end a
    sentence, then one more. *)
Definition well_grouped (l : line) : Prop :=
  exists (ws : list string) (w : string),
    l_words l = ws ++ [w] /\ (length ws < 8)%nat /\
    Forall (fun x => ends_sentence x = false) ws.


(** What the grouping loop keeps true between two words: the counter is
    the number of pending words and is below the limit, no pending word
    ends a sentence, and pending words have a start. *)
Definition pending_ok (st : grouping) : Prop :=
  segment_word_count st = Z.of_nat (length (current_segment st)) /\
  segment_word_count st < max_words_per_segment /\
  Forall (fun x => ends_sentence x = false) (current_segment st) /\
  (current_segment st <> [] -> current_start st <> None).

End LineFacts.

(** ** Further concrete inputs *)

Module MoreExamples.

Import Ai.

(** The dict the expander builds from [Examples.candidate_short] over the
    two lines of [Examples.steady_transcript]. *)
Definition expanded_short : gmap string pyval :=
  <["start_time" := PStr "00:00"]>
  (<["end_time" := PStr "00:45"]>
  (<["text" := PStr "hook line here one two three four five six"]>
  (<["relevance_score" := PFloat (FFin (9 # 10))]>
  (<["reasoning" := PStr "Engaging segment"]> ∅)))).

Definition steady_entries : list entry :=
  [Examples.line 0 20 "one two three"; Examples.line 20 45 "four five six"].

Definition spoken_word (t : string) (a b : Q) : Transcriber.raw_word :=
  {| Transcriber.rw_word := Some t; Transcriber.rw_start := Some a;
     Transcriber.rw_end := Some b |}.

(** A transcribed segment of three words and one word without an end. *)
Definition spoken : Transcriber.raw_segment :=
  {| Transcriber.rs_words :=
       [ spoken_word " Hello" (1 # 2) (9 # 10);
         spoken_word " world." (9 # 10) (3 # 2);
         {| Transcriber.rw_word := Some " um"; Transcriber.rw_start := Some (3 # 2);
            Transcriber.rw_end := None |};
         spoken_word " again" (2 # 1) (9 # 4) ];
     Transcriber.rs_start := Some (1 # 2);
     Transcriber.rs_end := Some (9 # 4);
     Transcriber.rs_text := Some " Hello world. um again" |}.


End MoreExamples.

(** ** Vocabulary of the splitter and of the transitions *)

Module ClipFacts.

Import Splitter Transitions.

(** A record of the splitter for pieces of [d] seconds of a video of
    [total] seconds: a non-empty stretch of the video, at most [d] long,
    that starts at the multiple of [d] given by its number. *)
Definition clip_within (d : Z) (total : Q) (c : split_clip) : Prop :=
  (0 <= sc_start c)%Q /\ (sc_start c < sc_end c)%Q /\ (sc_end c <= total)%Q /\
  sc_duration c = (sc_end c - sc_start c)%Q /\
  (sc_duration c <= inject_Z d)%Q /\
  (sc_start c == inject_Z ((clip_number c - 1) * d))%Q.

(** The records cover the stretch from [from] to [to] without gap or
    overlap, in order. *)
Fixpoint tiles (from : Q) (clips : list split_clip) (to : Q) : Prop :=
  match clips with
  | [] => (from == to)%Q
  | c :: rest => sc_start c = from /\ tiles (sc_end c) rest to
  end.

(** A record of the enhanced index stands for the clip [c]: it is the
    record of [c], or the record of [c] under a new file name and path,
    marked as having a transition. *)
Definition stands_for (e : enhanced_clip) (c : VideoUtils.clip_info) : Prop :=
  e = plain c \/
  (has_transition e = true /\
   ec_info e = renamed c (VideoUtils.filename (ec_info e)) (VideoUtils.path (ec_info e))).

End ClipFacts.

(** * Properties *)

Import Ai Vocabulary.

(** ** Strings of digits *)

Section DigitStrings.

Lemma all_chars_app P a b :
  all_chars P (a +:+ b) = all_chars P a && all_chars P b.
Proof.
  induction a as [|c a IH]; simpl; [reflexivity|].
  rewrite IH. now rewrite andb_assoc.
Qed.

Lemma all_chars_weaken (P Q : ascii -> bool) s :
  (forall c, P c = true -> Q c = true) ->
  all_chars P s = true -> all_chars Q s = true.
Proof.
  intros HPQ. induction s as [|c s IH]; simpl; [reflexivity|].
  intros [Hc Hs]%andb_prop. rewrite (HPQ c Hc). simpl. auto.
Qed.

Lemma digit_cases c :
  is_digit c = true ->
  is_space c = false /\ Ascii.eqb c ":" = false /\ Ascii.eqb c "." = false
  /\ Ascii.eqb "." c = false /\ Ascii.eqb c "_" = false.
Proof.
  destruct c as [[] [] [] [] [] [] [] []]; cbv; intros Hd;
    try discriminate Hd; repeat split.
Qed.

Lemma lstrip_id s : all_chars (fun c => negb (is_space c)) s = true -> lstrip s = s.
Proof.
  destruct s as [|c s]; simpl; [reflexivity|].
  intros [Hc _]%andb_prop. apply negb_true_iff in Hc. now rewrite Hc.
Qed.

Lemma rstrip_id s : all_chars (fun c => negb (is_space c)) s = true -> rstrip s = s.
Proof.
  induction s as [|c s IH]; simpl; [reflexivity|].
  intros [Hc Hs]%andb_prop. apply negb_true_iff in Hc.
  rewrite (IH Hs). destruct s; [now rewrite Hc | reflexivity].
Qed.

Lemma strip_id s : all_chars (fun c => negb (is_space c)) s = true -> strip s = s.
Proof.
  intros Hs. unfold strip. rewrite (lstrip_id _ Hs). now apply rstrip_id.
Qed.

Lemma split_on_none sep s :
  all_chars (fun c => negb (Ascii.eqb c sep)) s = true -> split_on sep s = [s].
Proof.
  induction s as [|c s IH]; simpl; [reflexivity|].
  intros [Hc Hs]%andb_prop. apply negb_true_iff in Hc.
  now rewrite Hc, (IH Hs).
Qed.

Lemma split_on_app sep a b :
  all_chars (fun c => negb (Ascii.eqb c sep)) a = true ->
  split_on sep (a +:+ String sep b) = a :: split_on sep b.
Proof.
  induction a as [|c a IH]; simpl.
  - intros _. now rewrite Ascii.eqb_refl.
  - intros [Hc Ha]%andb_prop. apply negb_true_iff in Hc.
    now rewrite Hc, (IH Ha).
Qed.

Lemma contains_none c s :
  all_chars (fun c' => negb (Ascii.eqb c c')) s = true -> contains c s = false.
Proof.
  induction s as [|c' s IH]; simpl; [reflexivity|].
  intros [Hc Hs]%andb_prop. apply negb_true_iff in Hc.
  now rewrite Hc, (IH Hs).
Qed.

Lemma digits_no_space s :
  digits_only s = true -> all_chars (fun c => negb (is_space c)) s = true.
Proof.
  apply all_chars_weaken. intros c Hc.
  destruct (digit_cases c Hc) as (-> & _). reflexivity.
Qed.

Lemma digits_no_colon s :
  digits_only s = true -> all_chars (fun c => negb (Ascii.eqb c ":")) s = true.
Proof.
  apply all_chars_weaken. intros c Hc.
  destruct (digit_cases c Hc) as (_ & -> & _). reflexivity.
Qed.

Lemma digits_no_dot s :
  digits_only s = true -> all_chars (fun c => negb (Ascii.eqb "." c)) s = true.
Proof.
  apply all_chars_weaken. intros c Hc.
  destruct (digit_cases c Hc) as (_ & _ & _ & -> & _). reflexivity.
Qed.

(** On a string of digits [int] reads the digits: there is nothing to strip
    and no sign. *)
Lemma int_of_str_digits s :
  digits_only s = true -> int_of_str s = int_digits 0 false s.
Proof.
  intros Hs. unfold int_of_str. rewrite (strip_id _ (digits_no_space _ Hs)).
  destruct s as [|c s]; [reflexivity|].
  simpl in Hs. apply andb_prop in Hs as [Hc _].
  destruct c as [[] [] [] [] [] [] [] []]; try reflexivity; cbv in Hc; discriminate Hc.
Qed.

Lemma digits_of_uint d : digits_only (NilEmpty.string_of_uint d) = true.
Proof. induction d; simpl; auto. Qed.

(** Reading the digits of a decimal numeral, most significant first. *)
Lemma int_digits_uint d acc :
  int_digits acc true (NilEmpty.string_of_uint d)
  = Some (Z.of_N (Unsigned.of_lu (Decimal.rev d)) + acc * 10 ^ Z.of_N (Unsigned.usize d)).
Proof.
  revert acc. induction d; intros acc;
    [ simpl; f_equal; lia
    | cbn [NilEmpty.string_of_uint int_digits]; simpl; rewrite IHd; f_equal;
      match goal with
      | |- context [Decimal.rev (?c d)] =>
          change (Decimal.rev (c d)) with (Decimal.revapp d (c Decimal.Nil));
          rewrite (Unsigned.of_lu_revapp d (c Decimal.Nil))
      end;
      cbn [Unsigned.of_lu Unsigned.usize];
      rewrite ?N2Z.inj_add, ?N2Z.inj_mul, ?N2Z.inj_add, ?N2Z.inj_mul,
        N2Z.inj_pow, N2Z.inj_succ, Z.pow_succ_r
        by apply N2Z.is_nonneg;
      set (X := Z.of_N (Unsigned.of_lu (Decimal.rev d)));
      set (P := Z.of_N 10 ^ Z.of_N (Unsigned.usize d));
      change (10 ^ Z.of_N (Unsigned.usize d)) with P;
      match goal with
      | |- context [digit_val ?c] =>
          let v := eval vm_compute in (digit_val c) in change (digit_val c) with v
      end;
      clearbody X P; cbn; ring .. ].
Qed.

Lemma int_digits_start d acc :
  d <> Decimal.Nil ->
  int_digits acc false (NilEmpty.string_of_uint d)
  = int_digits acc true (NilEmpty.string_of_uint d).
Proof. destruct d; intros Hd; [contradiction | reflexivity ..]. Qed.

Lemma to_uint_not_nil n : N.to_uint n <> Decimal.Nil.
Proof.
  destruct n as [|p]; [discriminate|]. apply Unsigned.to_uint_nonnil.
Qed.

Lemma int_digits_str_of_N n b : int_digits 0 b (str_of_N n) = Some (Z.of_N n).
Proof.
  unfold str_of_N.
  assert (Htrue : int_digits 0 true (NilEmpty.string_of_uint (N.to_uint n)) = Some (Z.of_N n)).
  { rewrite int_digits_uint, <- Unsigned.of_uint_alt.
    change (Pos.of_uint (N.to_uint n)) with (N.of_uint (N.to_uint n)).
    rewrite DecimalN.Unsigned.of_to. f_equal. lia. }
  destruct b; [exact Htrue|].
  rewrite int_digits_start by apply to_uint_not_nil. exact Htrue.
Qed.

Lemma str_of_Z_nonneg z : 0 <= z -> str_of_Z z = str_of_N (Z.to_N z).
Proof. intros Hz. unfold str_of_Z. now rewrite (proj2 (Z.ltb_ge z 0) Hz). Qed.

Lemma fmt_02d_digits z : 0 <= z -> digits_only (fmt_02d z) = true.
Proof.
  intros Hz. unfold fmt_02d. rewrite (str_of_Z_nonneg z Hz).
  destruct (_ <? _)%nat; simpl; apply digits_of_uint.
Qed.

(** [int(f"{z:02d}") == z] for a non-negative [z]. *)
Lemma int_of_fmt_02d z : 0 <= z -> int_of_str (fmt_02d z) = Some z.
Proof.
  intros Hz. rewrite (int_of_str_digits _ (fmt_02d_digits z Hz)).
  unfold fmt_02d. rewrite (str_of_Z_nonneg z Hz).
  destruct (_ <? _)%nat.
  - cbn [int_digits Ascii.eqb Bool.eqb]. simpl is_digit. cbv iota.
    change (10 * 0 + digit_val "0") with 0.
    rewrite int_digits_str_of_N. f_equal. lia.
  - rewrite int_digits_str_of_N. f_equal. lia.
Qed.

End DigitStrings.

(** ** Timestamps: the parser inverts the formatter *)

Section TimestampRoundTrip.

Lemma seconds_component_fmt z : 0 <= z -> seconds_component (fmt_02d z) = Some z.
Proof.
  intros Hz. unfold seconds_component.
  rewrite (contains_none _ _ (digits_no_dot _ (fmt_02d_digits z Hz))).
  now apply int_of_fmt_02d.
Qed.

Lemma split_mmss a b :
  digits_only a = true -> digits_only b = true ->
  split_on ":" (strip (a +:+ ":" +:+ b)) = [a; b].
Proof.
  intros Ha Hb.
  change (a +:+ ":" +:+ b) with (a +:+ String ":" b).
  rewrite strip_id.
  - rewrite (split_on_app _ _ _ (digits_no_colon _ Ha)).
    now rewrite (split_on_none _ _ (digits_no_colon _ Hb)).
  - rewrite all_chars_app. simpl.
    now rewrite (digits_no_space _ Ha), (digits_no_space _ Hb).
Qed.

(** The timestamp written for [m] minutes and [s] seconds parses back to
    [60 m + s]. *)
Lemma parse_mmss m s :
  0 <= m -> 0 <= s ->
  parse_timestamp_to_seconds (PStr (fmt_02d m +:+ ":" +:+ fmt_02d s)) = Some (m * 60 + s).
Proof.
  intros Hm Hs. unfold parse_timestamp_to_seconds.
  rewrite (split_mmss _ _ (fmt_02d_digits m Hm) (fmt_02d_digits s Hs)).
  rewrite (int_of_fmt_02d m Hm), (seconds_component_fmt s Hs).
  rewrite (proj2 (Z.ltb_ge s 0) Hs), (proj2 (Z.ltb_ge m 0) Hm). simpl.
  f_equal.
Qed.

(** C7. For every integer [s >= 0], parsing the formatted timestamp gives
    [s] back: [parse_timestamp_to_seconds(format_timestamp(s)) == s].  The
    formatter never writes an hours field (minutes just grow past 59), so
    the equality holds below 3600 and at and above 3600 alike, to the whole
    second, which is the precision of the formatter. *)
Theorem parse_format_timestamp_roundtrip (s : Z) :
  0 <= s ->
  parse_timestamp_to_seconds (PStr (VideoUtilsTime.format_timestamp (Some s))) = Some s.
Proof.
  intros Hs. unfold VideoUtilsTime.format_timestamp.
  rewrite parse_mmss.
  - f_equal. pose proof (Z.div_mod s 60). lia.
  - apply Z.div_pos; lia.
  - apply Z.mod_pos_bound. lia.
Qed.

Lemma parse_format_timestamp_roundtrip_witness :
  0 <= 3725 /\
  parse_timestamp_to_seconds (PStr (VideoUtilsTime.format_timestamp (Some 3725))) = Some 3725.
Proof.
  split; [lia | apply (parse_format_timestamp_roundtrip 3725); lia].
Defined.

End TimestampRoundTrip.

(** ** The validator *)

Section ValidatorFacts.
Context `{Builtins}.

Lemma enough_text_truthy t : enough_text t = true -> truthy (PStr t) = true.
Proof. destruct t; [discriminate | reflexivity]. Qed.

(** The verdict on a candidate whose fields have the types of the data
    model: the four checks decide, and the accepted segment carries the
    fields of the candidate. *)
Lemma validate_one_typed (d : gmap string pyval) sc t st et a b :
  py_float (dict_get d "relevance_score" (PFloat (FFin (8 # 10)))) = Ok sc ->
  dict_get d "text" (PStr EmptyString) = PStr t ->
  dict_get d "start_time" (PStr EmptyString) = PStr st ->
  dict_get d "end_time" (PStr EmptyString) = PStr et ->
  parse_timestamp_to_seconds (PStr st) = Some a ->
  parse_timestamp_to_seconds (PStr et) = Some b ->
  validate_one (PDict d) =
    if enough_text t && duration_in_range (b - a) && score_in_range sc
    then Accepted {| start_time := st; end_time := et; text := t;
                     relevance_score := sc;
                     reasoning := dict_get d "reasoning" (PStr "Engaging segment") |}
    else Skipped.
Proof.
  intros Hsc Ht Hst Het Ha Hb.
  unfold validate_one, validate_try. rewrite Hsc, Ht, Hst, Het. cbn [bind].
  rewrite Ha, Hb.
  unfold enough_text, duration_in_range, score_in_range,
    MIN_SEGMENT_DURATION, MAX_SEGMENT_DURATION.
  destruct t as [|c t']; [reflexivity|].
  cbn [truthy String.eqb negb].
  destruct (length (split_ws (String c t')) <? 3)%nat eqn:Hlen.
  - apply Nat.ltb_lt in Hlen.
    rewrite (proj2 (Nat.leb_gt _ _)) by lia. reflexivity.
  - apply Nat.ltb_ge in Hlen. rewrite (proj2 (Nat.leb_le _ _)) by lia.
    cbn [andb].
    destruct (b - a <? 30) eqn:Hlo.
    + apply Z.ltb_lt in Hlo. rewrite (proj2 (Z.leb_gt _ _)) by lia. reflexivity.
    + apply Z.ltb_ge in Hlo. rewrite (proj2 (Z.leb_le 30 _)) by lia.
      cbn [orb andb].
      destruct (b - a >? 60) eqn:Hhi.
      * apply Z.gtb_lt in Hhi. rewrite (proj2 (Z.leb_gt _ _)) by lia. reflexivity.
      * rewrite Z.gtb_ltb in Hhi. apply Z.ltb_ge in Hhi.
        rewrite (proj2 (Z.leb_le _ 60)) by lia.
        destruct (fle fzero sc && fle sc fone); reflexivity.
Qed.

(** The loop only ever extends the list it was given. *)
Lemma validate_loop_acc acc l :
  validate_loop acc l =
    match validate_loop [] l with
    | Ok r => Ok (acc ++ r)
    | Raise e => Raise e
    end.
Proof.
  revert acc. induction l as [|x l IH]; intros acc; simpl.
  - now rewrite app_nil_r.
  - destruct (validate_one x) as [s| |e]; [| apply IH | reflexivity].
    rewrite (IH (acc ++ [s])), (IH [s]).
    destruct (validate_loop [] l); [|reflexivity].
    now rewrite <- app_assoc.
Qed.

Lemma validate_segments_cons x l :
  validate_segments (x :: l) =
    match validate_one x with
    | Accepted s =>
        match validate_segments l with
        | Ok r => Ok (s :: r)
        | Raise e => Raise e
        end
    | Skipped => validate_segments l
    | Uncaught e => Raise e
    end.
Proof.
  unfold validate_segments. simpl.
  destruct (validate_one x); [| reflexivity ..].
  now rewrite validate_loop_acc.
Qed.

(** When the validator returns, it returns the accepted candidates in input
    order. *)
Lemma validate_segments_ok l r :
  validate_segments l = Ok r -> r = omap accepted_segment l.
Proof.
  revert r. induction l as [|x l IH]; intros r.
  - intros [= <-]. reflexivity.
  - rewrite validate_segments_cons. cbn [omap list_omap].
    change (accepted_segment x) with
      (match validate_one x with Accepted s => Some s | _ => None end).
    destruct (validate_one x) as [s| |e].
    + destruct (validate_segments l) as [r'|]; [|discriminate].
      intros [= <-]. now rewrite (IH r' eq_refl).
    + apply IH.
    + discriminate.
Qed.

(** The validator returns as long as no candidate raises past the
    [except] clause. *)
Lemma validate_segments_total l :
  Forall (fun x => forall e, validate_one x <> Uncaught e) l ->
  validate_segments l = Ok (omap accepted_segment l).
Proof.
  induction 1 as [|x l Hx _ IH]; [reflexivity|].
  rewrite validate_segments_cons, IH. cbn [omap list_omap].
  change (accepted_segment x) with
    (match validate_one x with Accepted s => Some s | _ => None end).
  destruct (validate_one x) as [s| |e]; [reflexivity | reflexivity |].
  now destruct (Hx e).
Qed.

(** Every accepted segment satisfies the bounds of the validator. *)
Lemma validate_one_accepted seg_data s :
  validate_one seg_data = Accepted s ->
  score_in_range (relevance_score s) = true /\
  exists a b,
    parse_timestamp_to_seconds (PStr (start_time s)) = Some a /\
    parse_timestamp_to_seconds (PStr (end_time s)) = Some b /\
    duration_in_range (b - a) = true /\ enough_text (text s) = true.
Proof.
  unfold validate_one. destruct seg_data as [| | | | |l|d]; try discriminate.
  unfold validate_try.
  destruct (py_float _) as [sc|e]; cbn [bind]; [|destruct e; discriminate].
  destruct (negb (truthy _)); [discriminate|].
  destruct (dict_get d "text" _) as [| | | |t| |]; try discriminate.
  destruct (length (split_ws t) <? 3)%nat eqn:Hlen; [discriminate|].
  destruct (parse_timestamp_to_seconds (dict_get d "start_time" _)) as [a|] eqn:Ha;
    [|discriminate].
  destruct (parse_timestamp_to_seconds (dict_get d "end_time" _)) as [b|] eqn:Hb;
    [|discriminate].
  destruct (_ || _) eqn:Hdur; [discriminate|].
  destruct (negb _) eqn:Hsc; [discriminate|].
  destruct (dict_get d "start_time" _) as [| | | |st| |]; try discriminate.
  destruct (dict_get d "end_time" _) as [| | | |et| |]; try discriminate.
  intros [= <-]. simpl.
  apply negb_false_iff in Hsc. split; [exact Hsc|].
  exists a, b. repeat split; try assumption.
  - apply orb_false_iff in Hdur as [Hlo Hhi].
    apply Z.ltb_ge in Hlo. rewrite Z.gtb_ltb in Hhi. apply Z.ltb_ge in Hhi.
    unfold duration_in_range. apply andb_true_intro. split; apply Z.leb_le; assumption.
  - unfold enough_text. apply Nat.ltb_ge in Hlen. now apply Nat.leb_le.
Qed.

End ValidatorFacts.

(** ** Candidates without a score, candidates with a null score *)

Section ScoreField.
Context `{Builtins}.

(** C9. A candidate dict without a [relevance_score] key is not rejected
    for it: with valid text (at least three tokens) and valid timing
    (parseable timestamps, duration between 30 and 60 seconds) it is
    accepted, the accepted segment carries the score 0.8, and its reasoning
    is the candidate's, or "Engaging segment" when the candidate has
    none. *)
Theorem missing_score_defaults (d : gmap string pyval) (t st et : string) (a b : Z) :
  d !! "relevance_score" = None ->
  d !! "text" = Some (PStr t) ->
  enough_text t = true ->
  d !! "start_time" = Some (PStr st) ->
  d !! "end_time" = Some (PStr et) ->
  parse_timestamp_to_seconds (PStr st) = Some a ->
  parse_timestamp_to_seconds (PStr et) = Some b ->
  duration_in_range (b - a) = true ->
  let seg := {| start_time := st; end_time := et; text := t;
                relevance_score := FFin (8 # 10);
                reasoning := match d !! "reasoning" with
                             | Some r => r
                             | None => PStr "Engaging segment"
                             end |} in
  validate_one (PDict d) = Accepted seg /\
  validate_segments [PDict d] = Ok [seg].
Proof.
  intros Hsc Ht Htok Hst Het Ha Hb Hdur seg.
  assert (Hone : validate_one (PDict d) = Accepted seg).
  { rewrite (validate_one_typed d (FFin (8 # 10)) t st et a b);
      try (unfold dict_get; rewrite ?Hsc, ?Ht, ?Hst, ?Het; reflexivity);
      try assumption.
    rewrite Htok, Hdur. reflexivity. }
  split; [exact Hone|].
  rewrite validate_segments_cons, Hone. reflexivity.
Qed.

End ScoreField.

Lemma missing_score_defaults_witness :
  @validate_segments Examples.toy_builtins [PDict Examples.candidate_no_score]
  = Ok [ {| start_time := "02:00"; end_time := "02:40"; text := "eta theta iota";
            relevance_score := FFin (8 # 10);
            reasoning := PStr "Engaging segment" |} ].
Proof.
  apply (@missing_score_defaults Examples.toy_builtins Examples.candidate_no_score
           "eta theta iota" "02:00" "02:40" 120 160); vm_compute; reflexivity.
Defined.

(** C1. The validator aborts on a candidate whose [relevance_score] is JSON
    [null]: [float(None)] raises [TypeError], which the clause
    [except (ValueError, KeyError)] does not catch.  A well-formed candidate
    validated before it is lost with it, although on its own it is
    accepted; [validate_and_fix_json_data] then returns no segment at all.
    The expansion loop reads the same field under [except Exception] and
    only skips the candidate. *)
Theorem validate_segments_null_score_aborts `{Builtins} :
  validate_one Examples.candidate_ok = Accepted Examples.segment_ok /\
  validate_segments [Examples.candidate_ok] = Ok [Examples.segment_ok] /\
  validate_segments [Examples.candidate_ok; Examples.candidate_null_score] = Raise TypeError /\
  most_relevant_segments
    (validate_and_fix_json_data
       (PDict {[ "most_relevant_segments" :=
                   PList [Examples.candidate_ok; Examples.candidate_null_score] ]})) = [] /\
  expand_try Examples.candidate_null_score = None.
Proof.
  repeat split; vm_compute; reflexivity.
Qed.

(** ** The expansion loop *)

Section ExpansionLoop.

(** C4, as stated, fails: a line whose inclusion pushes the duration beyond
    [MAX_SEGMENT_DURATION] is included.  Starting from a 20-second line, the
    loop appends a line that ends at second 61 and returns the 61-second
    window with both texts. *)
Lemma expand_loop_includes_overlong_line :
  ~ (forall new_start_s new_end_s texts rest,
        new_end_s - new_start_s <= MAX_SEGMENT_DURATION ->
        fst (expand_loop new_start_s new_end_s texts rest) - new_start_s
          <= MAX_SEGMENT_DURATION).
Proof.
  intros Hclaim.
  specialize (Hclaim 0 20 ["one"] [Examples.line 20 61 "two"]).
  vm_compute in Hclaim.
  apply Hclaim; [discriminate | reflexivity].
Qed.

(** C4, amended.  The loop appends the next [k] lines, each of them while
    the running duration is still below [MIN_SEGMENT_DURATION]; the end time
    is that of the last line appended, whatever duration it gives.  It stops
    when the stream ends or when the running duration has reached
    [MIN_SEGMENT_DURATION]; stopping because the line just appended went
    beyond [MAX_SEGMENT_DURATION] is an instance of the latter, and that
    line is part of the result. *)
Theorem expand_loop_appends_while_short (new_start_s new_end_s : Z)
    (texts : list string) (rest : list entry) :
  exists k : nat,
    (k <= length rest)%nat /\
    expand_loop new_start_s new_end_s texts rest
      = (running_end new_end_s rest k, texts ++ (e_text <$> take k rest)) /\
    (forall i : nat, (i < k)%nat ->
       running_end new_end_s rest i - new_start_s < MIN_SEGMENT_DURATION) /\
    (k = length rest \/
     MIN_SEGMENT_DURATION <= running_end new_end_s rest k - new_start_s).
Proof.
  revert new_end_s texts.
  induction rest as [|e rest IH]; intros new_end_s texts.
  - exists 0%nat. simpl. rewrite app_nil_r.
    split; [lia | split; [reflexivity | split; [lia | now left]]].
  - simpl expand_loop.
    destruct (new_end_s - new_start_s <? MIN_SEGMENT_DURATION) eqn:Hshort.
    + apply Z.ltb_lt in Hshort.
      destruct (end_s e - new_start_s >? MAX_SEGMENT_DURATION) eqn:Hlong.
      * exists 1%nat. simpl. rewrite ?take_0. simpl.
        split; [lia | split; [reflexivity | split]].
        -- intros i Hi. assert (i = 0%nat) as -> by lia. exact Hshort.
        -- right. apply Z.gtb_lt in Hlong.
           unfold MIN_SEGMENT_DURATION, MAX_SEGMENT_DURATION in *. lia.
      * destruct (IH (end_s e) (texts ++ [e_text e])) as (k & Hk & Heq & Hbefore & Hstop).
        exists (S k). simpl. rewrite Heq, <- app_assoc. simpl.
        split; [lia | split; [reflexivity | split]].
        -- intros [|i] Hi; simpl; [exact Hshort | apply Hbefore; lia].
        -- destruct Hstop as [-> | Hstop]; [now left | now right].
    + exists 0%nat. simpl. rewrite app_nil_r.
      apply Z.ltb_ge in Hshort.
      split; [lia | split; [reflexivity | split; [lia | now right]]].
Qed.

End ExpansionLoop.

(** ** The fallback: expansion, re-validation, merge *)

Section FallbackFacts.
Context `{Builtins}.

Lemma parse_nonneg ts x : parse_timestamp_to_seconds ts = Some x -> 0 <= x.
Proof.
  unfold parse_timestamp_to_seconds. destruct ts as [| | | |s| |]; try discriminate.
  match goal with
  | |- match ?c with Some _ => _ | None => _ end = _ -> _ =>
      destruct c as [[[h m] sec]|]; [|discriminate]
  end.
  destruct (_ || _) eqn:Hneg; [discriminate|].
  apply orb_false_iff in Hneg as [Hneg Hh]. apply orb_false_iff in Hneg as [Hs Hm].
  apply Z.ltb_ge in Hh, Hs, Hm. intros [= <-]. lia.
Qed.













End FallbackFacts.



(** ** Retries of the LLM call *)

Section Retries.
Context `{Builtins}.

Lemma call_loop_spec (env : nat -> post_outcome) (m : nat) :
  forall (remaining a : nat),
    (a + remaining = S m)%nat -> (1 <= remaining)%nat ->
    exists n : nat,
      (a + n <= m)%nat /\
      snd (call_loop env m a remaining) = attempts_log a n /\
      (forall i, (i < n)%nat -> is_text (attempt_once (env (a + i)%nat)) = false) /\
      match fst (call_loop env m a remaining) with
      | Some t => attempt_once (env (a + n)%nat) = GotText t
      | None => (a + n)%nat = m /\ is_text (attempt_once (env (a + n)%nat)) = false
      end.
Proof.
  induction remaining as [|r IH]; intros a Hsum Hpos; [lia|].
  simpl call_loop.
  destruct (attempt_once (env a)) as [t| | | |st|] eqn:Hres.
  1: { exists 0%nat. rewrite Nat.add_0_r. simpl.
       split; [lia | split; [reflexivity | split; [intros i Hi; lia | exact Hres]]]. }
  all: destruct (a <? m)%nat eqn:Ham;
    [ apply Nat.ltb_lt in Ham;
      destruct (IH (S a)) as (n & Hn & Hlog & Hfail & Hfst); [lia | lia |];
      destruct (call_loop env m (S a) r) as [res lg]; simpl in Hlog, Hfst |- *;
      exists (S n);
      split; [lia |];
      split; [now rewrite Hlog |];
      split;
      [ intros [|i] Hi;
        [ now rewrite Nat.add_0_r, Hres
        | replace (a + S i)%nat with (S a + i)%nat by lia; apply Hfail; lia ]
      | replace (a + S n)%nat with (S a + n)%nat by lia; exact Hfst ]
    | apply Nat.ltb_ge in Ham;
      exists 0%nat; rewrite Nat.add_0_r; simpl;
      split; [lia |];
      split; [reflexivity |];
      split; [intros i Hi; lia |];
      split; [lia | now rewrite Hres] ].
Qed.

(** C3, amended.  [call_ollama] makes attempt after attempt, sleeping five
    minutes before each one after the first, for as long as the attempts
    fail and at most [max_retries] further times: it returns the text of
    the first attempt that produces a non-empty response text, and [None]
    when all [max_retries + 1] attempts have failed.  Every kind of failure
    is retried alike; in particular a response with any HTTP error status,
    4xx as well as 5xx, is a failed attempt like any other. *)
Theorem call_ollama_retries_every_failure (env : nat -> post_outcome) (max_retries : nat) :
  (exists n : nat,
     (n <= max_retries)%nat /\
     snd (call_ollama env max_retries) = attempts_log 0 n /\
     (forall i, (i < n)%nat -> is_text (attempt_once (env i)) = false) /\
     match fst (call_ollama env max_retries) with
     | Some t => attempt_once (env n) = GotText t
     | None => n = max_retries /\ is_text (attempt_once (env n)) = false
     end) /\
  (forall status body,
     400 <= status < 600 ->
     attempt_once (PostResponse status body) = HTTPError status) /\
  is_text (attempt_once PostTimeout) = false /\
  is_text (attempt_once PostConnectionError) = false /\
  is_text (attempt_once PostOtherError) = false.
Proof.
  split; [|split; [|repeat split]].
  - unfold call_ollama.
    destruct (call_loop_spec env max_retries (S max_retries) 0%nat) as (n & Hn & Hrest);
      [lia | lia |].
    exists n. split; [lia | exact Hrest].
  - intros status body [Hlo Hhi]. unfold attempt_once.
    rewrite (proj2 (Z.leb_le _ _) Hlo), (proj2 (Z.ltb_lt _ _) Hhi). reflexivity.
Qed.

End Retries.

Lemma call_ollama_retries_every_failure_witness :
  @attempt_once Examples.toy_builtins (PostResponse 404 "not found") = HTTPError 404.
Proof.
  apply (@call_ollama_retries_every_failure Examples.toy_builtins
           (fun _ => PostTimeout) 3).
  lia.
Defined.

(** C3, as stated, fails: a server that answers every request with status
    404 is asked four times, with three sleeps of five minutes. *)
Lemma call_ollama_retries_404 :
  @call_ollama Examples.toy_builtins (fun _ => PostResponse 404 "not found") 3
  = (None, [Posted 0; Slept 300; Posted 1; Slept 300; Posted 2; Slept 300; Posted 3]).
Proof. vm_compute. reflexivity. Qed.

(** ** JSON recovery *)

Section RecoveryFacts.
Context `{Builtins}.

(** C6.  A response that is exactly the JSON object with
    [most_relevant_segments] set to [null] parses directly, and the parsed
    object is not returned: the statement that logs the number of segments
    takes [len(None)] inside the [try] block, the resulting [TypeError] is
    handled as a failed parse, the brace scan parses the same text and fails
    in the same way, and the function returns [None]. *)
Theorem extract_json_discards_parsed_object :
  json_loads Examples.null_segments_text
    = Some (PDict {[ "most_relevant_segments" := PNone ]}) ->
  extract_json_from_text Examples.null_segments_text
    = (None, [DirectParseOk; DirectParseUnexpected; BraceFound; BraceParseOk;
              BraceParseFailed; ExtractFailed 1;
              FullResponseText Examples.null_segments_text]).
Proof.
  intros Hloads.
  set (parsed := PDict {[ "most_relevant_segments" := PNone ]}) in Hloads.
  assert (Hcount : count_segments parsed = Raise TypeError) by (vm_compute; reflexivity).
  clearbody parsed.
  cbv -[json_loads count_segments] in Hloads |- *.
  rewrite !Hloads, !Hcount. reflexivity.
Qed.

End RecoveryFacts.

Lemma extract_json_discards_parsed_object_witness :
  fst (@extract_json_from_text Examples.toy_builtins Examples.null_segments_text) = None.
Proof.
  rewrite (@extract_json_discards_parsed_object Examples.toy_builtins);
    vm_compute; reflexivity.
Defined.

(** ** The clip index *)

Section ClipIndex.
Context `{Builtins} `{VideoUtils.Renderer}.

Lemma clip_of_segment_id vp od i seg c :
  VideoUtils.clip_of_segment vp od i seg = Some c ->
  VideoUtils.clip_id c = Z.of_nat i + 1.
Proof.
  unfold VideoUtils.clip_of_segment.
  repeat match goal with
         | |- match ?x with _ => _ end = _ -> _ => destruct x; try discriminate
         | |- (if ?x then _ else _) = _ -> _ => destruct x; try discriminate
         end.
  intros [= <-]. reflexivity.
Qed.

Lemma clips_from_spec vp od segs :
  forall i0 : nat,
    Forall (fun c => exists (j : nat) seg,
                segs !! j = Some seg /\
                VideoUtils.clip_of_segment vp od (i0 + j) seg = Some c)
           (VideoUtils.clips_from vp od i0 segs) /\
    Forall (fun c => Z.of_nat i0 < VideoUtils.clip_id c)
           (VideoUtils.clips_from vp od i0 segs) /\
    StronglySorted Z.lt (VideoUtils.clip_id <$> VideoUtils.clips_from vp od i0 segs).
Proof.
  induction segs as [|seg rest IH]; intros i0; simpl.
  - repeat split; constructor.
  - destruct (IH (S i0)) as (Hpos & Hlow & Hsorted).
    assert (Hshift :
      Forall (fun c => exists (j : nat) seg',
                  (seg :: rest) !! j = Some seg' /\
                  VideoUtils.clip_of_segment vp od (i0 + j) seg' = Some c)
             (VideoUtils.clips_from vp od (S i0) rest)).
    { eapply Forall_impl; [exact Hpos|]. intros c (j & seg' & Hj & Hc).
      exists (S j), seg'. split; [exact Hj|].
      now replace (i0 + S j)%nat with (S i0 + j)%nat by lia. }
    assert (Hlow' :
      Forall (fun c => Z.of_nat i0 < VideoUtils.clip_id c)
             (VideoUtils.clips_from vp od (S i0) rest)).
    { eapply Forall_impl; [exact Hlow|]. intros c Hc. simpl in Hc. lia. }
    destruct (VideoUtils.clip_of_segment vp od i0 seg) as [info|] eqn:Hinfo.
    + pose proof (clip_of_segment_id _ _ _ _ _ Hinfo) as Hid.
      split; [|split].
      * constructor; [|exact Hshift].
        exists 0%nat, seg. split; [reflexivity|]. now rewrite Nat.add_0_r.
      * constructor; [lia | exact Hlow'].
      * rewrite fmap_cons. constructor; [exact Hsorted|].
        apply Forall_fmap. eapply Forall_impl; [exact Hlow|].
        intros c Hc. simpl in *. lia.
    + split; [exact Hshift | split; [exact Hlow' | exact Hsorted]].
Qed.

(** C10. Every record of the clip index comes from the segment at some
    position [i] of the input list (counted from zero) and carries
    [clip_id = i + 1]; the records are in input order, so the clip ids are
    strictly increasing.  A segment that is skipped or fails to render
    leaves no record and does not shift the ids of the others. *)
Theorem clip_ids_are_input_positions (video_path : string) (segments : list pyval)
    (output_dir : string) :
  let clips := VideoUtils.create_clips_from_segments video_path segments output_dir in
  Forall (fun c => exists (i : nat) seg,
              segments !! i = Some seg /\
              VideoUtils.clip_of_segment video_path output_dir i seg = Some c /\
              VideoUtils.clip_id c = Z.of_nat i + 1) clips /\
  StronglySorted Z.lt (VideoUtils.clip_id <$> clips).
Proof.
  unfold VideoUtils.create_clips_from_segments.
  destruct (clips_from_spec video_path output_dir segments 0) as (Hpos & _ & Hsorted).
  split; [|exact Hsorted].
  eapply Forall_impl; [exact Hpos|]. intros c (j & seg & Hj & Hc).
  exists j, seg. simpl in Hc. split; [exact Hj|]. split; [exact Hc|].
  exact (clip_of_segment_id _ _ _ _ _ Hc).
Qed.

End ClipIndex.

(** Three segments, the second of which does not render: the index holds
    the clips 1 and 3. *)
Example clip_index_with_a_gap :
  VideoUtils.clip_id <$>
    @VideoUtils.create_clips_from_segments Examples.toy_builtins Examples.toy_renderer
      "talk.mp4"
      [Examples.clip_segment "00:10" "00:55"; Examples.clip_segment "01:40" "02:20";
       Examples.clip_segment "03:00" "03:45"]
      "clips"
  = [1; 3].
Proof. vm_compute. reflexivity. Qed.

(** ** The subtitle layer *)

Section SubtitleFacts.
Context `{VideoUtils.Renderer}.

Lemma qle_bool_false (x y : Q) : Qle_bool x y = false -> (y < x)%Q.
Proof.
  intros Hxy. apply Qnot_le_lt. intros Hle.
  apply Qle_bool_iff in Hle. congruence.
Qed.




(** For clip bounds in whole seconds, as the clip loop passes them, the
    window in milliseconds is the clip duration itself. *)
Lemma clip_duration_whole_seconds (a b : Z) :
  (VideoUtils.clip_duration (inject_Z a) (inject_Z b) == inject_Z (b - a))%Q.
Proof.
  unfold VideoUtils.clip_duration, VideoUtils.int_of_Q, VideoUtils.ms_to_s.
  simpl. rewrite !Z.quot_1_r.
  unfold Qeq, Qdiv, Qmult, Qinv, inject_Z. simpl. lia.
Qed.

End SubtitleFacts.


(** ** The analysis: cardinality, order, and when the expander runs *)

Section ScoreOrder.

Lemma in_range_finite x : score_in_range x = true -> exists q, x = FFin q.
Proof.
  destruct x as [|[]|q]; try discriminate. intros _. now exists q.
Qed.

Lemma fle_trans a b c : fle a b = true -> fle b c = true -> fle a c = true.
Proof.
  destruct a as [|[]|x], b as [|[]|y], c as [|[]|z]; simpl; try congruence.
  rewrite !Qle_bool_iff. apply Qle_trans.
Qed.

Lemma flt_fle a b : flt a b = true -> fle a b = true.
Proof.
  destruct a as [|[]|x], b as [|[]|y]; simpl; try congruence.
  intros Hlt. apply negb_true_iff in Hlt. apply Qle_bool_iff.
  apply Qlt_le_weak. now apply qle_bool_false.
Qed.

Lemma flt_false_fle x y : flt (FFin x) (FFin y) = false -> fle (FFin y) (FFin x) = true.
Proof. simpl. intros Hlt. now apply negb_false_iff in Hlt. Qed.

Lemma insert_by_score_valid x l :
  valid_score x -> Forall valid_score l -> Forall valid_score (insert_by_score x l).
Proof.
  intros Hx. induction 1 as [|y l Hy Hl IH]; simpl.
  - now repeat constructor.
  - destruct (flt _ _); repeat constructor; assumption.
Qed.

Lemma insert_by_score_bound z x l :
  score_ge z x -> Forall (score_ge z) l -> Forall (score_ge z) (insert_by_score x l).
Proof.
  intros Hx. induction 1 as [|y l Hy Hl IH]; simpl.
  - now repeat constructor.
  - destruct (flt _ _); repeat constructor; assumption.
Qed.

Lemma insert_by_score_sorted x l :
  valid_score x -> Forall valid_score l ->
  StronglySorted score_ge l -> StronglySorted score_ge (insert_by_score x l).
Proof.
  intros Hx Hl Hsorted. induction Hsorted as [|y l Hsorted IH Hy]; simpl.
  - repeat constructor.
  - apply Forall_cons in Hl as [Hvy Hl].
    destruct (flt (relevance_score x) (relevance_score y)) eqn:Hlt.
    + constructor; [now apply IH|].
      apply insert_by_score_bound; [|exact Hy].
      unfold score_ge. now apply flt_fle.
    + assert (Hyx : score_ge x y).
      { unfold score_ge.
        destruct (in_range_finite _ Hx) as [qx Hqx], (in_range_finite _ Hvy) as [qy Hqy].
        rewrite Hqx, Hqy in *. now apply flt_false_fle. }
      constructor; [now constructor|].
      constructor; [exact Hyx|].
      eapply Forall_impl; [exact Hy|]. intros z Hz. unfold score_ge in *.
      exact (fle_trans _ _ _ Hz Hyx).
Qed.

Lemma sort_by_score_valid l : Forall valid_score l -> Forall valid_score (sort_by_score l).
Proof.
  induction 1 as [|x l Hx Hl IH]; simpl; [constructor|].
  now apply insert_by_score_valid.
Qed.

Lemma sort_by_score_sorted l :
  Forall valid_score l -> StronglySorted score_ge (sort_by_score l).
Proof.
  induction 1 as [|x l Hx Hl IH]; simpl; [constructor|].
  apply insert_by_score_sorted; [exact Hx | now apply sort_by_score_valid | exact IH].
Qed.

Lemma insert_by_score_length x l : length (insert_by_score x l) = S (length l).
Proof.
  induction l as [|y l IH]; simpl; [reflexivity|].
  destruct (flt _ _); simpl; [now rewrite IH | reflexivity].
Qed.

Lemma sort_by_score_length l : length (sort_by_score l) = length l.
Proof.
  induction l as [|x l IH]; simpl; [reflexivity|].
  now rewrite insert_by_score_length, IH.
Qed.

Lemma take_sorted n (l : list TranscriptSegment) :
  StronglySorted score_ge l -> StronglySorted score_ge (take n l).
Proof.
  intros Hsorted. revert n. induction Hsorted as [|x l Hsorted IH Hx]; intros [|n]; simpl;
    try constructor.
  - apply IH.
  - now apply Forall_take.
Qed.

(** Sorting and trimming gives at most five segments, best first. *)
Lemma sort_and_trim_props l :
  Forall valid_score l ->
  Forall valid_score (sort_and_trim l) /\
  StronglySorted score_ge (sort_and_trim l) /\
  (length (sort_and_trim l) <= MAX_SEGMENTS)%nat.
Proof.
  intros Hl. unfold sort_and_trim. split; [|split].
  - apply Forall_take. now apply sort_by_score_valid.
  - apply take_sorted. now apply sort_by_score_sorted.
  - rewrite length_take. lia.
Qed.

Lemma sort_and_trim_length l :
  length (sort_and_trim l) = Nat.min MAX_SEGMENTS (length l).
Proof. unfold sort_and_trim. now rewrite length_take, sort_by_score_length. Qed.

End ScoreOrder.

Section AnalysisFacts.
Context `{Builtins}.

Lemma validate_segments_valid l r :
  validate_segments l = Ok r -> Forall valid_score r.
Proof.
  intros Hr. apply validate_segments_ok in Hr as ->.
  apply Forall_forall. intros s Hs.
  apply list_elem_of_omap in Hs as (x & _ & Hx).
  unfold accepted_segment in Hx.
  destruct (validate_one x) as [s'| |] eqn:Hone; try discriminate.
  injection Hx as ->. now destruct (validate_one_accepted _ _ Hone).
Qed.

Lemma validate_and_fix_valid json_data :
  Forall valid_score (most_relevant_segments (validate_and_fix_json_data json_data)).
Proof.
  unfold validate_and_fix_json_data.
  destruct (validate_and_fix_try json_data) as [a|e] eqn:Htry; [|constructor].
  unfold validate_and_fix_try in Htry.
  destruct json_data as [| | | | | |d]; try discriminate.
  destruct (if negb _ then _ else _) as [no_segments|]; [|discriminate].
  cbn [bind] in Htry.
  destruct (if no_segments then _ else _) as [segments_data|]; [|discriminate].
  cbn [bind] in Htry.
  destruct (validate_segments _) as [validated|] eqn:Hval; [|discriminate].
  cbn [bind] in Htry.
  destruct (dict_get d "summary" _); try discriminate;
    injection Htry as <-; simpl; exact (validate_segments_valid _ _ Hval).
Qed.

Lemma merge_new_valid K segs rv :
  Forall valid_score segs -> Forall valid_score rv ->
  Forall valid_score (merge_new K segs rv).
Proof.
  intros Hsegs Hrv. revert K segs Hsegs.
  induction Hrv as [|s rv Hs Hrv IH]; intros K segs Hsegs; simpl; [exact Hsegs|].
  destruct (bool_decide _); apply IH; [exact Hsegs|].
  apply Forall_app. split; [exact Hsegs | now repeat constructor].
Qed.

Lemma fallback_try_ok transcript json_data segments merged lg :
  fallback_try transcript json_data segments = Ok (merged, lg) ->
  exists expanded revalidated,
    _expand_segments_with_transcript transcript (original_segments json_data) = Ok expanded /\
    validate_segments expanded = Ok revalidated /\
    merged = sort_and_trim
               (merge_new (list_to_set (segment_key <$> segments)) segments revalidated).
Proof.
  unfold fallback_try.
  destruct (_expand_segments_with_transcript _ _) as [expanded|] eqn:Hexp; [|discriminate].
  cbn [bind].
  destruct (validate_segments expanded) as [revalidated|] eqn:Hval; [|discriminate].
  cbn [bind]. intros [= <- _]. exists expanded, revalidated.
  split; [reflexivity | split; [exact Hval | reflexivity]].
Qed.

(** The segments of an analysis that came out of the [try] block. *)
Lemma analyse_response_segments transcript raw_text a lg :
  analyse_response transcript raw_text = (inr a, lg) ->
  Forall valid_score (most_relevant_segments a) /\
  StronglySorted score_ge (most_relevant_segments a) /\
  (length (most_relevant_segments a) <= MAX_SEGMENTS)%nat.
Proof.
  unfold analyse_response.
  destruct (extract_json_from_text raw_text) as [[json_data|] lg0]; [|discriminate].
  destruct (negb (truthy json_data)); [discriminate|].
  destruct (match json_data with PDict _ => _ | _ => _ end) as [[]|]; [|discriminate].
  pose proof (sort_and_trim_props _ (validate_and_fix_valid json_data))
    as (Hvalid & Hsorted & Hlen).
  destruct (_ <? _)%nat.
  - destruct (fallback_try _ _ _) as [[merged lg']|e] eqn:Hfb.
    + intros [= <- _]. simpl.
      apply fallback_try_ok in Hfb as (expanded & revalidated & _ & Hval & ->).
      apply sort_and_trim_props, merge_new_valid; [exact Hvalid|].
      exact (validate_segments_valid _ _ Hval).
    + intros [= <- _]. simpl. auto.
  - intros [= <- _]. simpl. auto.
Qed.

Lemma attempts_log_quiet a n : ExpanderStart ∉ attempts_log a n.
Proof.
  revert a. induction n as [|n IH]; intros a; simpl;
    destruct (0 <? a)%nat; simpl;
    rewrite ?not_elem_of_cons; repeat split;
    try discriminate; try apply not_elem_of_nil; try apply IH.
Qed.

Lemma call_ollama_quiet env m : ExpanderStart ∉ snd (call_ollama env m).
Proof.
  unfold call_ollama.
  destruct (call_loop_spec env m (S m) 0%nat) as (n & _ & -> & _); [lia | lia |].
  apply attempts_log_quiet.
Qed.

Lemma try_blocks_quiet i matches : ExpanderStart ∉ snd (try_blocks i matches).
Proof.
  revert i. induction matches as [|m rest IH]; intros i; simpl.
  - apply not_elem_of_nil.
  - destruct (json_loads _).
    + simpl. rewrite not_elem_of_cons. split; [discriminate | apply not_elem_of_nil].
    + specialize (IH (S i)). destruct (try_blocks (S i) rest) as [r lg]. simpl in *.
      rewrite not_elem_of_cons. split; [discriminate | exact IH].
Qed.

Lemma brace_scan_quiet rest :
  forall depth n prefix, ExpanderStart ∉ snd (brace_scan depth n prefix rest).
Proof.
  induction rest as [|c rest IH]; intros depth n prefix; simpl.
  - rewrite not_elem_of_cons. split; [discriminate | apply not_elem_of_nil].
  - destruct (Ascii.eqb c "{"); [apply IH|].
    destruct (Ascii.eqb c "}"); [|apply IH].
    destruct (_ =? 0); [|apply IH].
    destruct (json_loads _) as [result|].
    + destruct (count_segments result).
      * simpl. rewrite not_elem_of_cons. split; [discriminate | apply not_elem_of_nil].
      * specialize (IH (depth - 1) (S n) (prefix +:+ String c EmptyString)).
        destruct (brace_scan _ _ _ rest) as [r lg]. simpl in *.
        rewrite !not_elem_of_cons. repeat split; try discriminate. exact IH.
    + specialize (IH (depth - 1) (S n) (prefix +:+ String c EmptyString)).
      destruct (brace_scan _ _ _ rest) as [r lg]. simpl in *.
      rewrite !not_elem_of_cons. repeat split; try discriminate. exact IH.
Qed.

Lemma scan_braces_quiet text : ExpanderStart ∉ snd (scan_braces text).
Proof.
  unfold scan_braces. destruct (from_first_brace text) as [from_start|].
  - pose proof (brace_scan_quiet from_start 0 0%nat EmptyString) as Hscan.
    destruct (brace_scan _ _ _ _) as [[r|] lg]; simpl in *.
    + rewrite not_elem_of_cons. split; [discriminate | exact Hscan].
    + rewrite not_elem_of_cons, not_elem_of_app, not_elem_of_cons.
      repeat split; try discriminate; [exact Hscan | apply not_elem_of_nil].
  - simpl. rewrite !not_elem_of_cons.
    repeat split; try discriminate. apply not_elem_of_nil.
Qed.

Lemma blocks_then_braces_quiet text : ExpanderStart ∉ snd (blocks_then_braces text).
Proof.
  unfold blocks_then_braces. destruct (findall_blocks text) as [|m ms].
  - apply scan_braces_quiet.
  - pose proof (try_blocks_quiet 1 (m :: ms)) as Hblocks.
    destruct (try_blocks 1 (m :: ms)) as [[r|] lg]; simpl in Hblocks.
    + simpl. rewrite not_elem_of_cons. split; [discriminate | exact Hblocks].
    + pose proof (scan_braces_quiet text) as Hscan.
      destruct (scan_braces text) as [r' lg']. simpl in *.
      rewrite not_elem_of_cons, not_elem_of_app.
      repeat split; try discriminate; assumption.
Qed.

Lemma extract_json_quiet text : ExpanderStart ∉ snd (extract_json_from_text text).
Proof.
  unfold extract_json_from_text.
  pose proof (blocks_then_braces_quiet text) as Hrest.
  destruct (String.eqb text EmptyString).
  { simpl. rewrite not_elem_of_cons. split; [discriminate | apply not_elem_of_nil]. }
  destruct (json_loads _) as [result|].
  - destruct (count_segments result).
    + simpl. rewrite not_elem_of_cons. split; [discriminate | apply not_elem_of_nil].
    + destruct (blocks_then_braces text) as [r lg]. simpl in *.
      rewrite !not_elem_of_cons. repeat split; try discriminate. exact Hrest.
  - destruct (blocks_then_braces text) as [r lg]. simpl in *.
    rewrite not_elem_of_cons. split; [discriminate | exact Hrest].
Qed.

(** With three or more segments accepted at first pass, the [try] block
    never reaches the expander. *)
Lemma analyse_response_quiet transcript raw_text json_data :
  fst (extract_json_from_text raw_text) = Some json_data ->
  (MIN_SEGMENTS <= length (most_relevant_segments (validate_and_fix_json_data json_data)))%nat ->
  ExpanderStart ∉ snd (analyse_response transcript raw_text).
Proof.
  intros Hjson Hcount. unfold analyse_response.
  pose proof (extract_json_quiet raw_text) as Hquiet.
  destruct (extract_json_from_text raw_text) as [o lg0]. simpl in Hjson, Hquiet.
  subst o.
  destruct (negb (truthy json_data)).
  { simpl. rewrite not_elem_of_app, not_elem_of_cons.
    repeat split; try discriminate; [exact Hquiet | apply not_elem_of_nil]. }
  destruct (match json_data with PDict _ => _ | _ => _ end) as [[]|]; [|exact Hquiet].
  rewrite sort_and_trim_length.
  replace (_ <? _)%nat with false
    by (symmetry; apply Nat.ltb_ge; unfold MIN_SEGMENTS, MAX_SEGMENTS in *; lia).
  simpl. rewrite not_elem_of_app, not_elem_of_cons.
  repeat split; try discriminate; [exact Hquiet | apply not_elem_of_nil].
Qed.

(** C5. Whatever the transcript and whatever the server answers, the
    analysis that is returned holds at most [MAX_SEGMENTS] = 5 segments,
    sorted by [relevance_score], larger scores first; and when the response
    decodes to an object from which first-pass validation accepts at least
    [MIN_SEGMENTS] = 3 candidates, the expander is not run. *)
Theorem analysis_capped_sorted_expander_only_when_short (connection_ok : bool)
    (env : nat -> post_outcome) (transcript : string) :
  let result := get_most_relevant_parts_by_transcript connection_ok env transcript in
  (length (most_relevant_segments (fst result)) <= MAX_SEGMENTS)%nat /\
  StronglySorted score_ge (most_relevant_segments (fst result)) /\
  (forall raw_text json_data,
     fst (call_ollama env 3) = Some raw_text ->
     fst (extract_json_from_text raw_text) = Some json_data ->
     (MIN_SEGMENTS
        <= length (most_relevant_segments (validate_and_fix_json_data json_data)))%nat ->
     ExpanderStart ∉ snd result).
Proof.
  unfold get_most_relevant_parts_by_transcript.
  assert (Hempty : forall s lg,
    (length (most_relevant_segments (fst (empty_analysis s, lg : list log_event)))
       <= MAX_SEGMENTS)%nat /\
    StronglySorted score_ge (most_relevant_segments (fst (empty_analysis s, lg)))).
  { intros s lg. simpl. split; [unfold MAX_SEGMENTS; lia | constructor]. }
  destruct (_ || _).
  { destruct (Hempty NoTranscriptProvided [EmptyTranscript]) as [Hlen Hsorted].
    split; [exact Hlen | split; [exact Hsorted|]].
    intros _ _ _ _ _. simpl.
    rewrite not_elem_of_cons. split; [discriminate | apply not_elem_of_nil]. }
  destruct (negb connection_ok).
  { destruct (Hempty ConnectionTestFailed [ConnectionFailed]) as [Hlen Hsorted].
    split; [exact Hlen | split; [exact Hsorted|]].
    intros _ _ _ _ _. simpl.
    rewrite not_elem_of_cons. split; [discriminate | apply not_elem_of_nil]. }
  pose proof (call_ollama_quiet env 3) as Hcall.
  destruct (call_ollama env 3) as [[raw_text|] lg]; simpl in Hcall.
  2: { split; [simpl; unfold MAX_SEGMENTS; lia | split; [constructor|]].
       intros ? ? Hraw. discriminate Hraw. }
  destruct (analyse_response transcript raw_text) as [[cause|analysis] lg'] eqn:Hresp.
  - split; [simpl; unfold MAX_SEGMENTS; lia | split; [constructor|]].
    intros raw json_data [= <-] Hjson Hcount. simpl.
    pose proof (analyse_response_quiet transcript raw_text json_data Hjson Hcount) as Hq.
    rewrite Hresp in Hq. simpl in Hq.
    rewrite !not_elem_of_app, not_elem_of_cons.
    repeat split; try discriminate; try assumption. apply not_elem_of_nil.
  - destruct (analyse_response_segments _ _ _ _ Hresp) as (_ & Hsorted & Hlen).
    split; [exact Hlen | split; [exact Hsorted|]].
    intros raw json_data [= <-] Hjson Hcount. simpl.
    pose proof (analyse_response_quiet transcript raw_text json_data Hjson Hcount) as Hq.
    rewrite Hresp in Hq. simpl in Hq.
    rewrite not_elem_of_app. split; assumption.
Qed.

End AnalysisFacts.

Lemma analysis_capped_sorted_expander_only_when_short_witness :
  let result :=
    @get_most_relevant_parts_by_transcript Examples.three_segments_builtins true
      Examples.three_segments_server Examples.steady_transcript in
  (length (most_relevant_segments (fst result)) <= MAX_SEGMENTS)%nat /\
  StronglySorted score_ge (most_relevant_segments (fst result)) /\
  ExpanderStart ∉ snd result.
Proof.
  destruct (@analysis_capped_sorted_expander_only_when_short
              Examples.three_segments_builtins true
              Examples.three_segments_server Examples.steady_transcript)
    as (Hlen & Hsorted & Hquiet).
  split; [exact Hlen | split; [exact Hsorted|]].
  apply (Hquiet Examples.three_segments_text Examples.three_segments_json).
  - vm_compute. reflexivity.
  - vm_compute. reflexivity.
  - vm_compute. lia.
Defined.

(** The same run, evaluated: three segments come back. *)
Example three_segments_run :
  length (most_relevant_segments
            (fst (@get_most_relevant_parts_by_transcript Examples.three_segments_builtins
                    true Examples.three_segments_server Examples.steady_transcript)))
  = 3%nat.
Proof. vm_compute. reflexivity. Qed.

(** * Further properties *)

Import Invariants.

(** ** Bounds of validated segments *)

Section SegmentBounds.
Context `{Builtins}.

Lemma accepted_within_bounds x s : accepted_segment x = Some s -> within_bounds s.
Proof.
  unfold accepted_segment.
  destruct (validate_one x) as [s'| |] eqn:Hone; try discriminate.
  intros [= ->].
  destruct (validate_one_accepted _ _ Hone) as (Hsc & a & b & Ha & Hb & Hdur & Htxt).
  split; [exact Hsc|]. exists a, b.
  repeat split; try assumption. exact (parse_nonneg _ _ Ha).
Qed.

Lemma validated_bounds l r : validate_segments l = Ok r -> Forall within_bounds r.
Proof.
  intros Hr. apply validate_segments_ok in Hr as ->.
  apply Forall_forall. intros s Hs.
  apply list_elem_of_omap in Hs as (x & _ & Hx).
  exact (accepted_within_bounds _ _ Hx).
Qed.

(** X1. Every segment that [validate_segments] returns has a score between
    0 and 1, timestamps that parse to a non-negative start and an end 30 to
    60 seconds later, and a text of at least three tokens. *)
Theorem validated_segments_within_bounds (segments_data : list pyval)
    (validated : list TranscriptSegment) :
  validate_segments segments_data = Ok validated ->
  Forall within_bounds validated.
Proof. apply validated_bounds. Qed.

End SegmentBounds.

Lemma validated_segments_within_bounds_witness :
  Forall within_bounds [Examples.segment_ok].
Proof.
  apply (@validated_segments_within_bounds Examples.toy_builtins [Examples.candidate_ok]).
  vm_compute. reflexivity.
Defined.

(** ** Lines of the transcript *)

Section TranscriptLines.

(** X2. Every entry of [_parse_transcript_lines] carries the seconds of its
    two timestamps, starts at a non-negative second and ends strictly later;
    lines that do not match, and lines that do not run forward, are dropped,
    so there are at most as many entries as lines. *)
Theorem parsed_lines_are_forward_windows (transcript : string) :
  Forall forward_window (_parse_transcript_lines transcript) /\
  (length (_parse_transcript_lines transcript) <= length (splitlines transcript))%nat.
Proof.
  unfold _parse_transcript_lines. split.
  - apply Forall_forall. intros e He.
    apply list_elem_of_omap in He as (l & _ & Hl).
    unfold parse_line in Hl.
    destruct (match_line _) as [[[st en] tx]|]; [|discriminate].
    destruct (parse_timestamp_to_seconds (PStr st)) as [a|] eqn:Ha; [|discriminate].
    destruct (parse_timestamp_to_seconds (PStr en)) as [b|] eqn:Hb; [|discriminate].
    destruct (b <=? a) eqn:Hle; [discriminate|].
    injection Hl as <-. unfold forward_window. simpl.
    apply Z.leb_gt in Hle. pose proof (parse_nonneg _ _ Ha).
    repeat split; try assumption; lia.
  - generalize (splitlines transcript). intros l.
    induction l as [|x l IH]; [simpl; lia|].
    change (omap parse_line (x :: l))
      with (match parse_line x with
            | Some y => y :: omap parse_line l
            | None => omap parse_line l
            end).
    destruct (parse_line x); cbn [length]; lia.
Qed.

End TranscriptLines.

(** ** The sort by score *)

Section SortFacts.

Lemma insert_by_score_perm x l : insert_by_score x l ≡ₚ x :: l.
Proof.
  induction l as [|y l IH]; simpl; [reflexivity|].
  destruct (flt _ _); [|reflexivity].
  rewrite IH. apply Permutation_swap.
Qed.

Lemma sort_perm l : sort_by_score l ≡ₚ l.
Proof.
  induction l as [|x l IH]; simpl; [reflexivity|].
  rewrite insert_by_score_perm. now rewrite IH.
Qed.

(** X3. Sorting by score rearranges the segments and does nothing else:
    the result is a permutation of the input. *)
Theorem sort_by_score_permutation (l : list TranscriptSegment) :
  sort_by_score l ≡ₚ l /\ length (sort_by_score l) = length l.
Proof.
  split; [apply sort_perm | apply sort_by_score_length].
Qed.

Lemma insert_above x l :
  Forall (score_ge x) l -> insert_by_score x l = x :: l.
Proof.
  destruct l as [|y l]; [reflexivity|].
  intros Hall. apply Forall_cons in Hall as [Hy _]. simpl.
  unfold score_ge in Hy.
  destruct (relevance_score x) as [|[]|p], (relevance_score y) as [|[]|q];
    simpl in *; try discriminate; try reflexivity.
  now rewrite Hy.
Qed.

(** X4. The sort is stable at the top: a list that is already in
    descending order of score, ties included, comes back unchanged, so
    segments with equal scores keep the order in which the model gave
    them. *)
Theorem sort_by_score_keeps_sorted (l : list TranscriptSegment) :
  StronglySorted score_ge l -> sort_by_score l = l.
Proof.
  induction 1 as [|x l Hs IH Hall]; simpl; [reflexivity|].
  rewrite IH. now apply insert_above.
Qed.

End SortFacts.

Lemma sort_by_score_keeps_sorted_witness :
  sort_by_score [Examples.segment_ok; Examples.segment_ok]
  = [Examples.segment_ok; Examples.segment_ok].
Proof.
  apply sort_by_score_keeps_sorted.
  repeat constructor.
Defined.

(** ** The merge of the fallback *)

Section MergeFacts.

Lemma merge_new_shape (K : gset (string * string)) segs rv :
  exists added,
    merge_new K segs rv = segs ++ added /\
    sublist added rv /\
    NoDup (segment_key <$> added) /\
    (forall s, s ∈ added -> segment_key s ∉ K) /\
    (forall s, s ∈ rv -> segment_key s ∈ K \/ segment_key s ∈ segment_key <$> added).
Proof.
  revert K segs. induction rv as [|s rv IH]; intros K segs; simpl.
  - exists []. rewrite app_nil_r.
    split; [reflexivity | split; [constructor | split; [constructor | split]]].
    + intros s Hs. inversion Hs.
    + intros s Hs. inversion Hs.
  - destruct (bool_decide _) eqn:Hk.
    + apply bool_decide_eq_true in Hk.
      destruct (IH K segs) as (added & -> & Hsub & Hnd & Hfresh & Hcov).
      exists added.
      split; [reflexivity | split; [now constructor | split; [exact Hnd | split]]].
      * exact Hfresh.
      * intros s' Hs'. apply elem_of_cons in Hs' as [->|Hs']; [now left | now apply Hcov].
    + apply bool_decide_eq_false in Hk.
      destruct (IH ({[ segment_key s ]} ∪ K) (segs ++ [s]))
        as (added & -> & Hsub & Hnd & Hfresh & Hcov).
      exists (s :: added).
      split; [now rewrite <- app_assoc | split; [now constructor | split; [|split]]].
      * rewrite fmap_cons. constructor; [|exact Hnd].
        intros Hin. apply list_elem_of_fmap in Hin as (s' & Hkey & Hs').
        apply (Hfresh s' Hs'). rewrite <- Hkey. set_solver.
      * intros s' Hs'. apply elem_of_cons in Hs' as [->|Hs']; [exact Hk|].
        specialize (Hfresh s' Hs'). set_solver.
      * intros s' Hs'. rewrite fmap_cons.
        apply elem_of_cons in Hs' as [->|Hs']; [right; left|].
        destruct (Hcov s' Hs') as [HK|Hadd].
        -- apply elem_of_union in HK as [HK|HK].
           ++ apply elem_of_singleton in HK. right. rewrite HK. left.
           ++ now left.
        -- right. now right.
Qed.

(** X5. The merge of the fallback keeps the segments it already has, in
    place, and appends revalidated segments in their order; an appended
    segment has a time window that no kept segment and no other appended
    segment has, and every revalidated segment has its window in the
    result. *)
Theorem merge_new_appends_fresh_windows (segments revalidated : list TranscriptSegment) :
  exists added,
    merge_new (list_to_set (segment_key <$> segments)) segments revalidated
      = segments ++ added /\
    sublist added revalidated /\
    NoDup (segment_key <$> added) /\
    (forall s, s ∈ added -> segment_key s ∉ segment_key <$> segments) /\
    (forall s, s ∈ revalidated ->
       segment_key s ∈ segment_key <$> (segments ++ added)).
Proof.
  destruct (merge_new_shape (list_to_set (segment_key <$> segments)) segments revalidated)
    as (added & Heq & Hsub & Hnd & Hfresh & Hcov).
  exists added.
  split; [exact Heq | split; [exact Hsub | split; [exact Hnd | split]]].
  - intros s Hs Hin. apply (Hfresh s Hs). now apply elem_of_list_to_set.
  - intros s Hs. rewrite fmap_app, elem_of_app.
    destruct (Hcov s Hs) as [HK|Hadd]; [left | now right].
    now apply elem_of_list_to_set in HK.
Qed.

End MergeFacts.

(** ** Bounds of the segments of an analysis *)

Section AnalysisBounds.
Context `{Builtins}.

Lemma sort_and_trim_Forall (P : TranscriptSegment -> Prop) l :
  Forall P l -> Forall P (sort_and_trim l).
Proof.
  intros Hl. unfold sort_and_trim. apply Forall_take.
  apply Forall_forall. intros s Hs.
  rewrite (sort_perm l) in Hs.
  rewrite Forall_forall in Hl. now apply Hl.
Qed.

Lemma merge_new_Forall (P : TranscriptSegment -> Prop) K segs rv :
  Forall P segs -> Forall P rv -> Forall P (merge_new K segs rv).
Proof.
  intros Hsegs Hrv.
  destruct (merge_new_shape K segs rv) as (added & -> & Hsub & _).
  apply Forall_app. split; [exact Hsegs|].
  rewrite Forall_forall in Hrv. apply Forall_forall. intros s Hs.
  apply Hrv. exact (elem_of_sublist _ _ _ Hs Hsub).
Qed.

Lemma validate_and_fix_bounds json_data :
  Forall within_bounds (most_relevant_segments (validate_and_fix_json_data json_data)).
Proof.
  unfold validate_and_fix_json_data.
  destruct (validate_and_fix_try json_data) as [a|e] eqn:Htry; [|constructor].
  unfold validate_and_fix_try in Htry.
  destruct json_data as [| | | | | |d]; try discriminate.
  destruct (if negb _ then _ else _) as [no_segments|]; [|discriminate].
  cbn [bind] in Htry.
  destruct (if no_segments then _ else _) as [segments_data|]; [|discriminate].
  cbn [bind] in Htry.
  destruct (validate_segments _) as [validated|] eqn:Hval; [|discriminate].
  cbn [bind] in Htry.
  destruct (dict_get d "summary" _); try discriminate;
    injection Htry as <-; simpl; exact (validated_bounds _ _ Hval).
Qed.

Lemma analyse_response_bounds transcript raw_text a lg :
  analyse_response transcript raw_text = (inr a, lg) ->
  Forall within_bounds (most_relevant_segments a).
Proof.
  unfold analyse_response.
  destruct (extract_json_from_text raw_text) as [[json_data|] lg0]; [|discriminate].
  destruct (negb (truthy json_data)); [discriminate|].
  destruct (match json_data with PDict _ => _ | _ => _ end) as [[]|]; [|discriminate].
  pose proof (sort_and_trim_Forall _ _ (validate_and_fix_bounds json_data)) as Hb.
  destruct (_ <? _)%nat.
  - destruct (fallback_try _ _ _) as [[merged lg']|e] eqn:Hfb.
    + intros [= <- _]. simpl.
      apply fallback_try_ok in Hfb as (expanded & revalidated & _ & Hval & ->).
      apply sort_and_trim_Forall, merge_new_Forall; [exact Hb|].
      exact (validated_bounds _ _ Hval).
    + intros [= <- _]. simpl. exact Hb.
  - intros [= <- _]. simpl. exact Hb.
Qed.

(** X6. Whatever the server answers, every segment of the analysis that
    [get_most_relevant_parts_by_transcript] returns is within the bounds of
    the validator: neither the sort, nor the cut to five, nor the fallback
    lets a segment through that the validator has not accepted. *)
Theorem analysis_segments_within_bounds (connection_ok : bool) (env : nat -> post_outcome)
    (transcript : string) :
  Forall within_bounds
    (most_relevant_segments
       (fst (get_most_relevant_parts_by_transcript connection_ok env transcript))).
Proof.
  unfold get_most_relevant_parts_by_transcript.
  destruct (_ || _); [constructor|].
  destruct (negb connection_ok); [constructor|].
  destruct (call_ollama env 3) as [[raw_text|] lg]; [|constructor].
  destruct (analyse_response transcript raw_text) as [[cause|a] lg'] eqn:Ha;
    [constructor|].
  simpl. exact (analyse_response_bounds _ _ _ _ Ha).
Qed.

End AnalysisBounds.

(** ** The text of a response *)

Section ResponseText.
Context `{Builtins}.

Lemma attempt_once_text o t :
  attempt_once o = GotText t ->
  t <> EmptyString /\
  exists status body, o = PostResponse status body /\ ~ (400 <= status < 600).
Proof.
  destruct o as [| | |status body]; try discriminate.
  unfold attempt_once.
  destruct ((400 <=? status) && (status <? 600)) eqn:Hst; [discriminate|].
  intros Ht.
  match type of Ht with
  | match ?r with Ok _ => _ | Raise _ => _ end = _ =>
      destruct r as [t'|]; [|discriminate]
  end.
  destruct (String.eqb t' EmptyString) eqn:He; [discriminate|].
  injection Ht as <-. split.
  - intros ->. discriminate.
  - exists status, body. split; [reflexivity|].
    intros [Hlo Hhi]. apply andb_false_iff in Hst as [Hst|Hst].
    + apply Z.leb_gt in Hst. lia.
    + apply Z.ltb_ge in Hst. lia.
Qed.

(** X7. [call_ollama] never hands an empty text to its caller: a text it
    returns is not the empty string, and it is the text of a response that
    came back with a status outside 400..599 on one of the [max_retries + 1]
    attempts.  A response that is empty after stripping counts as a failed
    attempt. *)
Theorem call_ollama_text_is_nonempty (env : nat -> post_outcome) (max_retries : nat)
    (t : string) :
  fst (call_ollama env max_retries) = Some t ->
  t <> EmptyString /\
  exists (i : nat) status body,
    (i <= max_retries)%nat /\ env i = PostResponse status body /\
    ~ (400 <= status < 600) /\ attempt_once (env i) = GotText t.
Proof.
  intros Ht. unfold call_ollama in Ht.
  destruct (call_loop_spec env max_retries (S max_retries) 0 eq_refl ltac:(lia))
    as (n & Hn & _ & _ & Hres).
  rewrite Ht in Hres. simpl in Hres, Hn.
  destruct (attempt_once_text _ _ Hres) as (Hne & status & body & Henv & Hst).
  split; [exact Hne|].
  exists n, status, body. repeat split; try assumption; lia.
Qed.

End ResponseText.

Lemma call_ollama_text_is_nonempty_witness :
  "ok" <> EmptyString /\
  exists (i : nat) status body,
    (i <= 3)%nat /\
    (fun _ : nat => PostResponse 200 Examples.ok_response_text) i = PostResponse status body /\
    ~ (400 <= status < 600) /\
    @attempt_once Examples.toy_builtins
      ((fun _ : nat => PostResponse 200 Examples.ok_response_text) i) = GotText "ok".
Proof.
  apply (@call_ollama_text_is_nonempty Examples.toy_builtins
           (fun _ => PostResponse 200 Examples.ok_response_text) 3 "ok").
  vm_compute. reflexivity.
Defined.

(** ** A failed extraction *)

Section FailedExtraction.
Context `{Builtins}.






End FailedExtraction.


(** ** The fallback and the alternative keys *)

Section FallbackKeys.
Context `{Builtins}.

(** X9. The fallback reads the candidates under [most_relevant_segments]
    only.  When the response has them under one of the alternative keys
    that [validate_and_fix_json_data] accepts, or is not a dict, the
    expander receives an empty list and the fallback returns the segments
    it was given, sorted and cut, with nothing added. *)
Theorem fallback_reads_only_the_main_key (transcript : string) (json_data : pyval)
    (segments : list TranscriptSegment) :
  match json_data with
  | PDict d => d !! "most_relevant_segments" = None
  | _ => True
  end ->
  fallback_try transcript json_data segments
  = Ok (sort_and_trim segments,
        [FallbackRevalidated 0; AfterFallback (length (sort_and_trim segments))]).
Proof.
  intros Hkey. unfold fallback_try.
  assert (Horig : original_segments json_data = PList []).
  { destruct json_data; try reflexivity. simpl. unfold dict_get. now rewrite Hkey. }
  rewrite Horig. unfold _expand_segments_with_transcript.
  destruct (_parse_transcript_lines transcript); reflexivity.
Qed.

End FallbackKeys.

Lemma fallback_reads_only_the_main_key_witness :
  @fallback_try Examples.toy_builtins Examples.steady_transcript
    (PDict {[ "segments" := PList [Examples.candidate_short] ]}) []
  = Ok ([], [FallbackRevalidated 0; AfterFallback 0]).
Proof.
  apply (@fallback_reads_only_the_main_key Examples.toy_builtins Examples.steady_transcript
           (PDict {[ "segments" := PList [Examples.candidate_short] ]}) []).
  vm_compute. reflexivity.
Defined.

(** ** Where an expansion starts *)

Section ExpansionStart.
Context `{Builtins}.

Lemma find_start_split entries s e0 rest :
  find_start entries s = Some (e0, rest) ->
  exists before,
    entries = before ++ e0 :: rest /\
    Forall (fun e => start_s e < s - 1) before /\ s - 1 <= start_s e0.
Proof.
  induction entries as [|e entries IH]; simpl; [discriminate|].
  destruct (start_s e >=? s - 1) eqn:Hge.
  - intros [= <- <-]. exists []. rewrite Z.geb_le in Hge.
    split; [reflexivity | split; [constructor | exact Hge]].
  - intros Hf. destruct (IH Hf) as (before & -> & Hall & Hle).
    exists (e :: before).
    split; [reflexivity | split; [|exact Hle]].
    constructor; [|exact Hall].
    destruct (Z.geb_spec (start_s e) (s - 1)); [discriminate | lia].
Qed.

(** X10. An expanded candidate starts at a line of the transcript, not at
    the start the model gave: at the first line whose start is no earlier
    than one second before the candidate's start.  Its window runs on over
    the lines that follow, and it carries the candidate's score and
    reasoning over unchanged. *)
Theorem expansion_starts_at_a_transcript_line (entries : list entry) (seg : pyval)
    (d : gmap string pyval) :
  expand_one entries seg = Ok (Some (PDict d)) ->
  exists sd before e0 rest,
    expand_try seg = Some sd /\
    entries = before ++ e0 :: rest /\
    Forall (fun e => start_s e < seed_start_s sd - 1) before /\
    seed_start_s sd - 1 <= start_s e0 /\
    d !! "start_time" = Some (PStr (mmss (start_s e0))) /\
    d !! "end_time"
      = Some (PStr (mmss (fst (expand_loop (start_s e0) (end_s e0) [e_text e0] rest)))) /\
    d !! "relevance_score" = Some (PFloat (score sd)) /\
    d !! "reasoning" = Some (seed_reasoning sd).
Proof.
  unfold expand_one.
  destruct (expand_try seg) as [sd|]; [|discriminate].
  destruct (find_start entries (seed_start_s sd)) as [[e0 rest]|] eqn:Hfind; [|discriminate].
  destruct (find_start_split _ _ _ _ Hfind) as (before & Hent & Hall & Hle).
  destruct (expand_loop _ _ _ _) as [new_end_s combined_texts] eqn:Hloop.
  destruct (_ || _); [discriminate|].
  destruct (base_text sd); try discriminate.
  intros [= <-].
  exists sd, before, e0, rest. rewrite Hloop.
  repeat split; try assumption; reflexivity.
Qed.

End ExpansionStart.

Lemma expansion_starts_at_a_transcript_line_witness :
  exists sd before e0 rest,
    @expand_try Examples.toy_builtins Examples.candidate_short = Some sd /\
    MoreExamples.steady_entries = before ++ e0 :: rest /\
    Forall (fun e => start_s e < seed_start_s sd - 1) before /\
    seed_start_s sd - 1 <= start_s e0 /\
    MoreExamples.expanded_short !! "start_time" = Some (PStr (mmss (start_s e0))) /\
    MoreExamples.expanded_short !! "end_time"
      = Some (PStr (mmss (fst (expand_loop (start_s e0) (end_s e0) [e_text e0] rest)))) /\
    MoreExamples.expanded_short !! "relevance_score" = Some (PFloat (score sd)) /\
    MoreExamples.expanded_short !! "reasoning" = Some (seed_reasoning sd).
Proof.
  apply (@expansion_starts_at_a_transcript_line Examples.toy_builtins
           MoreExamples.steady_entries Examples.candidate_short MoreExamples.expanded_short).
  vm_compute. reflexivity.
Defined.

(** ** The two timestamp parsers *)

Section TwoParsers.
Context `{Builtins}.

Lemma not_space_neq c a : is_space c = false -> is_space a = true -> Ascii.eqb c a = false.
Proof.
  intros Hc Ha. destruct (Ascii.eqb_spec c a) as [->|]; [congruence | reflexivity].
Qed.

Lemma contains_lstrip c s : is_space c = false -> contains c (lstrip s) = contains c s.
Proof.
  intros Hc. induction s as [|a s IH]; [reflexivity|].
  simpl. destruct (is_space a) eqn:Ha; [|reflexivity].
  now rewrite IH, (not_space_neq _ _ Hc Ha).
Qed.

Lemma contains_rstrip c s : is_space c = false -> contains c (rstrip s) = contains c s.
Proof.
  intros Hc. induction s as [|a s IH]; [reflexivity|].
  cbn [rstrip contains]. destruct (rstrip s) as [|b r].
  - simpl in IH. rewrite <- IH. destruct (is_space a) eqn:Ha.
    + now rewrite (not_space_neq _ _ Hc Ha).
    + reflexivity.
  - cbn [contains]. now rewrite <- IH.
Qed.

Lemma contains_strip c s : is_space c = false -> contains c (strip s) = contains c s.
Proof.
  intros Hc. unfold strip. now rewrite contains_rstrip, contains_lstrip.
Qed.

Lemma split_on_without sep s : contains sep s = false -> split_on sep s = [s].
Proof.
  induction s as [|a s IH]; [reflexivity|].
  simpl. intros Hc. apply orb_false_iff in Hc as [Ha Hs].
  rewrite Ascii.eqb_sym, Ha, (IH Hs). reflexivity.
Qed.

Lemma contains_pieces c sep s :
  Ascii.eqb c sep = false ->
  contains c s = existsb (contains c) (split_on sep s).
Proof.
  intros Hne. induction s as [|a s IH]; [reflexivity|].
  cbn [contains split_on]. destruct (Ascii.eqb_spec a sep) as [->|Ha].
  - rewrite Hne. simpl. exact IH.
  - destruct (split_on sep s) as [|p ps].
    + simpl in *. rewrite IH. now rewrite !orb_false_r.
    + simpl in *. rewrite IH. now rewrite orb_assoc.
Qed.

Lemma int_digits_dot acc b s : contains "." s = true -> int_digits acc b s = None.
Proof.
  revert acc b. induction s as [|a s IH]; intros acc b; [discriminate|].
  cbn [contains int_digits]. destruct (Ascii.eqb_spec "."%char a) as [<-|Ha].
  - reflexivity.
  - simpl. intros Hs.
    destruct (Ascii.eqb a "_"); [destruct b; [apply IH, Hs | reflexivity]|].
    destruct (is_digit a); [apply IH, Hs | reflexivity].
Qed.

Lemma int_of_str_dot s : contains "." s = true -> int_of_str s = None.
Proof.
  intros Hs. unfold int_of_str.
  rewrite <- (contains_strip "." s eq_refl) in Hs.
  destruct (strip s) as [|c r]; [discriminate|].
  pose proof (int_digits_dot 0 false _ Hs) as Hd.
  destruct (Ascii.eqb_spec c "-") as [->|Hm].
  { simpl in Hs. now rewrite (int_digits_dot 0 false _ Hs). }
  destruct (Ascii.eqb_spec c "+") as [->|Hp].
  { simpl in Hs. now rewrite (int_digits_dot 0 false _ Hs). }
  destruct c as [[] [] [] [] [] [] [] []]; try exact Hd; congruence.
Qed.

Lemma seconds_component_int sec s :
  seconds_component sec = Some s ->
  int_of_str sec = if contains "." sec then None else Some s.
Proof.
  unfold seconds_component. destruct (contains "." sec) eqn:Hdot.
  - intros _. now apply int_of_str_dot.
  - auto.
Qed.

Lemma int_of_str_no_dot x z : int_of_str x = Some z -> contains "." x = false.
Proof.
  intros Hx. destruct (contains "." x) eqn:Hdot; [|reflexivity].
  rewrite (int_of_str_dot _ Hdot) in Hx. discriminate.
Qed.

Lemma clip_parser_agrees (ts : string) (v : Z) :
  Ai.parse_timestamp_to_seconds (PStr ts) = Some v ->
  VideoUtils.parse_timestamp_to_seconds ts
  = if contains "." ts then None else Some (VideoUtils.NInt v).
Proof.
  unfold Ai.parse_timestamp_to_seconds, VideoUtils.parse_timestamp_to_seconds.
  rewrite <- (contains_strip "." ts eq_refl).
  rewrite (contains_pieces "." ":" (strip ts) eq_refl).
  pose proof (split_on_without ":" (strip ts)) as Hone.
  destruct (split_on ":" (strip ts)) as [|p0 [|p1 [|p2 [|p3 ps]]]]; try discriminate.
  - destruct (contains ":" (strip ts)); [|discriminate (Hone eq_refl)].
    destruct (int_of_str p0) as [m|] eqn:Hm; [|discriminate].
    destruct (seconds_component p1) as [s|] eqn:Hs; [|discriminate].
    destruct (_ || _) eqn:Hneg; [discriminate|]. intros [= <-].
    rewrite (seconds_component_int _ _ Hs). cbn [existsb].
    rewrite (int_of_str_no_dot _ _ Hm), orb_false_r. simpl.
    destruct (contains "." p1); [reflexivity|]. do 2 f_equal.
  - destruct (contains ":" (strip ts)); [|discriminate (Hone eq_refl)].
    destruct (int_of_str p0) as [h|] eqn:Hh; [|discriminate].
    destruct (int_of_str p1) as [m|] eqn:Hm; [|discriminate].
    destruct (seconds_component p2) as [s|] eqn:Hs; [|discriminate].
    destruct (_ || _) eqn:Hneg; [discriminate|]. intros [= <-].
    rewrite (seconds_component_int _ _ Hs). cbn [existsb].
    rewrite (int_of_str_no_dot _ _ Hh), (int_of_str_no_dot _ _ Hm), orb_false_r. simpl.
    destruct (contains "." p2); reflexivity.
Qed.


(** X11. The parser of the clip maker agrees with the parser of the
    validator on every timestamp the validator reads, except where the
    seconds carry a fraction: the validator drops the fraction, the clip
    maker fails on it, so a segment validated with such a timestamp gets
    no clip. *)
Theorem clip_parser_agrees_with_validator (ts : string) (v : Z) :
  Ai.parse_timestamp_to_seconds (PStr ts) = Some v ->
  VideoUtils.parse_timestamp_to_seconds ts
  = if contains "." ts then None else Some (VideoUtils.NInt v).
Proof. apply clip_parser_agrees. Qed.

End TwoParsers.

Lemma clip_parser_agrees_with_validator_witness :
  @VideoUtils.parse_timestamp_to_seconds Examples.toy_builtins "01:05"
  = Some (VideoUtils.NInt 65).
Proof.
  apply (@clip_parser_agrees_with_validator Examples.toy_builtins "01:05" 65).
  vm_compute. reflexivity.
Defined.

(** ** The groups of three words *)

Section WordGroups.

Lemma chunks3_shape (n : nat) :
  forall l : list VideoUtils.relevant_word,
    (length l <= n)%nat ->
    concat (VideoUtils.chunks3 l) = l /\
    Forall (fun g => (1 <= length g <= 3)%nat) (VideoUtils.chunks3 l) /\
    forall i g, VideoUtils.chunks3 l !! i = Some g -> g = take 3 (drop (3 * i) l).
Proof.
  induction n as [|n IH]; intros l Hl.
  - destruct l; [|simpl in Hl; lia].
    split; [reflexivity | split; [constructor|]]. intros i g Hi. now destruct i.
  - destruct l as [|a [|b [|c rest]]].
    + split; [reflexivity | split; [constructor|]]. intros i g Hi. now destruct i.
    + split; [reflexivity | split; [repeat constructor; simpl; lia|]].
      intros [|[|i]] g; simpl; try discriminate. now intros [= <-].
    + split; [reflexivity | split; [repeat constructor; simpl; lia|]].
      intros [|[|i]] g; simpl; try discriminate. now intros [= <-].
    + destruct (IH rest) as (Hcat & Hall & Hidx); [simpl in Hl; lia|].
      change (VideoUtils.chunks3 (a :: b :: c :: rest))
        with ([a; b; c] :: VideoUtils.chunks3 rest).
      split; [|split].
      * simpl. now rewrite Hcat.
      * constructor; [simpl; lia | exact Hall].
      * intros [|i] g Hi.
        -- injection Hi as <-. reflexivity.
        -- simpl in Hi. rewrite (Hidx i g Hi).
           replace (3 * S i)%nat with (S (S (S (3 * i))))%nat by lia. reflexivity.
Qed.

(** X12. The subtitle groups partition the selected words: joined end to
    end they give the words back in order, every group has one to three
    words, and the group at index [i] is the slice of three that starts at
    word [3 i]. *)
Theorem chunks3_partitions_the_words (l : list VideoUtils.relevant_word) :
  concat (VideoUtils.chunks3 l) = l /\
  Forall (fun g => (1 <= length g <= 3)%nat) (VideoUtils.chunks3 l) /\
  forall i g, VideoUtils.chunks3 l !! i = Some g -> g = take 3 (drop (3 * i) l).
Proof. exact (chunks3_shape (length l) l (le_n _)). Qed.

End WordGroups.

(** ** Even sizes, odd kernels, the square crop *)

Section CropFacts.

Lemma round_to_even_double value : Crop.round_to_even value = 2 * (value / 2).
Proof. unfold Crop.round_to_even. pose proof (Z.div_mod value 2). lia. Qed.

Lemma round_to_even_range value :
  Z.even (Crop.round_to_even value) = true /\
  value - 1 <= Crop.round_to_even value <= value.
Proof.
  split.
  - rewrite round_to_even_double, Z.even_mul. reflexivity.
  - unfold Crop.round_to_even. pose proof (Z.mod_pos_bound value 2). lia.
Qed.

(** X13. [round_to_even] gives the largest even integer that is not above
    its argument, for negative arguments too: the result is even, it is the
    argument or one below it, and an even argument is returned as it is. *)
Theorem round_to_even_is_even_floor (value : Z) :
  Z.even (Crop.round_to_even value) = true /\
  value - 1 <= Crop.round_to_even value <= value /\
  (Z.even value = true -> Crop.round_to_even value = value).
Proof.
  destruct (round_to_even_range value) as [Heven Hrange].
  split; [exact Heven | split; [exact Hrange|]].
  intros Hv. unfold Crop.round_to_even.
  rewrite Z.even_spec in Hv. destruct Hv as [k ->].
  rewrite Z.mul_comm, Z.mod_mul; lia.
Qed.

Lemma lor_one k : Z.lor k 1 = k + 1 - k mod 2.
Proof.
  pose proof (Z.add_lor_land k 1) as Hadd.
  change 1 with (Z.ones 1) in Hadd at 2.
  rewrite Z.land_ones in Hadd by lia.
  change (2 ^ 1) with 2 in Hadd. lia.
Qed.

(** X14. The blur kernel is always usable: whatever size is asked for,
    negative sizes included, the size handed to the blur is odd and at
    least 3; an odd size of 3 or more is taken as it is, an even one is
    raised by one. *)
Theorem blur_kernel_is_odd_and_at_least_3 (ksize : Z) :
  Z.odd (Crop.blur_kernel ksize) = true /\
  3 <= Crop.blur_kernel ksize /\
  (3 <= ksize -> Crop.blur_kernel ksize = if Z.odd ksize then ksize else ksize + 1).
Proof.
  unfold Crop.blur_kernel.
  assert (Hodd : Z.odd (Z.lor ksize 1) = true).
  { rewrite <- Z.bit0_odd, Z.lor_spec, orb_true_r. reflexivity. }
  split; [|split].
  - destruct (Z.max_spec 3 (Z.lor ksize 1)) as [[_ ->]|[_ ->]]; [exact Hodd | reflexivity].
  - lia.
  - intros Hk. rewrite lor_one.
    pose proof (Zmod_odd ksize) as Hm.
    destruct (Z.odd ksize); rewrite Hm; lia.
Qed.

Lemma centred_range original new :
  new <= original -> 0 <= Crop.centred original new <= original - new.
Proof.
  intros Hle. unfold Crop.centred. destruct (original >? new) eqn:Hgt.
  - pose proof (Z.div_pos (original - new) 2).
    pose proof (Z.div_le_upper_bound (original - new) 2 (original - new)). lia.
  - lia.
Qed.

Lemma face_offset_range weighted original new :
  new <= original -> 0 <= Crop.face_offset weighted original new <= original - new.
Proof. intros Hle. unfold Crop.face_offset. lia. Qed.

Lemma even_offset_range off bound :
  0 <= off <= bound ->
  Z.even (Crop.round_to_even off) = true /\ 0 <= Crop.round_to_even off <= bound.
Proof.
  intros Hoff. destruct (round_to_even_range off) as [Heven Hrange].
  split; [exact Heven|].
  rewrite round_to_even_double in *. pose proof (Z.div_pos off 2). lia.
Qed.

Lemma square_crop_offsets original_width original_height detected :
  let side := Crop.round_to_even (Z.min original_width original_height) in
  exists x_offset y_offset,
    0 <= x_offset <= original_width - side /\
    0 <= y_offset <= original_height - side /\
    Crop.detect_optimal_square_crop_region original_width original_height detected
    = (Crop.round_to_even x_offset, Crop.round_to_even y_offset, side, side).
Proof.
  intros side.
  destruct (round_to_even_range (Z.min original_width original_height)) as [_ Hrange].
  fold side in Hrange.
  assert (Hw : side <= original_width) by lia.
  assert (Hh : side <= original_height) by lia.
  unfold Crop.detect_optimal_square_crop_region. fold side.
  destruct detected as [[|fc rest]|].
  - eexists _, _. split; [|split; [|reflexivity]]; now apply centred_range.
  - cbv zeta. destruct (VideoUtils.qlt _ _).
    + eexists _, _. split; [|split; [|reflexivity]]; now apply face_offset_range.
    + eexists _, _. split; [|split; [|reflexivity]]; now apply centred_range.
  - exists (Crop.centred original_width side), (Crop.centred original_height side).
    split; [now apply centred_range | split; [now apply centred_range|]].
    unfold Crop.centred. cbv zeta.
    destruct (original_width >? side), (original_height >? side); reflexivity.
Qed.

(** X15. The square crop lies inside the frame and has even geometry,
    whatever faces were detected, wherever they are, and also when the
    detection fails: width and height
    are the same even number, the short side of the frame or one pixel
    less; both offsets are even and non-negative, and the square ends
    within the frame in both directions. *)
Theorem square_crop_lies_inside_the_frame (original_width original_height : Z)
    (detected : option (list Crop.face)) :
  let '(x_offset, y_offset, new_width, new_height) :=
    Crop.detect_optimal_square_crop_region original_width original_height detected in
  new_width = new_height /\
  Z.even new_width = true /\
  Z.min original_width original_height - 1 <= new_width
    <= Z.min original_width original_height /\
  Z.even x_offset = true /\ Z.even y_offset = true /\
  0 <= x_offset /\ x_offset + new_width <= original_width /\
  0 <= y_offset /\ y_offset + new_height <= original_height.
Proof.
  destruct (square_crop_offsets original_width original_height detected)
    as (xo & yo & Hx & Hy & ->).
  destruct (round_to_even_range (Z.min original_width original_height))
    as [Hside Hrange].
  destruct (even_offset_range _ _ Hx) as [Hxe Hxr].
  destruct (even_offset_range _ _ Hy) as [Hye Hyr].
  repeat split; try assumption; lia.
Qed.

End CropFacts.

(** ** From an accepted segment to its clip *)

Section SegmentToClip.
Context `{Builtins} `{VideoUtils.Renderer}.


End SegmentToClip.


(** ** Timestamps of the transcript *)

Section FloatTimestamps.





End FloatTimestamps.

(** ** The lines of a transcribed segment *)

Section Grouping.

Import Transcriber LineFacts.

Lemma fresh_ok : pending_ok fresh.
Proof.
  unfold pending_ok, fresh, max_words_per_segment. simpl.
  split; [reflexivity | split; [lia | split; [constructor | congruence]]].
Qed.

Lemma omap_kept_cons w words :
  omap kept_text (w :: words)
  = match kept_text w with
    | Some t => t :: omap kept_text words
    | None => omap kept_text words
    end.
Proof. reflexivity. Qed.

Lemma group_words_spec words :
  forall st, pending_ok st ->
    let '(lines, st') := group_words st words in
    pending_ok st' /\
    Forall well_grouped lines /\
    concat (l_words <$> lines) ++ current_segment st'
    = current_segment st ++ omap kept_text words.
Proof.
  induction words as [|word rest IH]; intros st Hst.
  - simpl. split; [exact Hst | split; [constructor|]]. now rewrite app_nil_r.
  - cbn [group_words]. rewrite omap_kept_cons. unfold kept_text at 1.
    destruct (rw_start word) as [w_start|]; [|exact (IH st Hst)].
    destruct (rw_end word) as [w_end|]; [|exact (IH st Hst)].
    destruct (String.eqb (word_text word) EmptyString); [exact (IH st Hst)|].
    destruct Hst as (Hcount & Hlt & Hplain & Hstart).
    destruct ((max_words_per_segment <=? segment_word_count st + 1)
              || ends_sentence (word_text word)) eqn:Hflush.
    + specialize (IH fresh fresh_ok).
      destruct (group_words fresh rest) as [lines st'].
      destruct IH as (Hst' & Hlines & Hcat).
      assert (Hemit :
        match current_segment st ++ [word_text word],
              match current_start st with Some cs => Some cs | None => Some w_start end with
        | _ :: _, Some cs =>
            [ {| l_start := cs; l_end := w_end;
                 l_words := current_segment st ++ [word_text word] |} ]
        | _, _ => []
        end
        = [ {| l_start := default w_start (current_start st); l_end := w_end;
               l_words := current_segment st ++ [word_text word] |} ]).
      { destruct (current_segment st ++ [word_text word]) eqn:Happ.
        - now destruct (current_segment st).
        - now destruct (current_start st). }
      rewrite Hemit. cbn [app].
      split; [exact Hst' | split].
      * constructor; [|exact Hlines].
        exists (current_segment st), (word_text word). simpl.
        split; [reflexivity | split; [|exact Hplain]].
        unfold max_words_per_segment in Hlt. lia.
      * rewrite fmap_cons. cbn [concat l_words]. simpl in Hcat.
        rewrite <- !app_assoc. f_equal. cbn [app]. f_equal. exact Hcat.
    + apply orb_false_iff in Hflush as [Hmax Hsent].
      apply Z.leb_gt in Hmax.
      set (st1 := {| current_segment := current_segment st ++ [word_text word];
                     current_start := match current_start st with
                                      | Some cs => Some cs
                                      | None => Some w_start
                                      end;
                     segment_word_count := segment_word_count st + 1 |}).
      assert (Hst1 : pending_ok st1).
      { unfold pending_ok, st1. simpl. rewrite length_app. simpl.
        split; [lia | split; [exact Hmax | split]].
        - apply Forall_app. split; [exact Hplain | now repeat constructor].
        - intros _. now destruct (current_start st). }
      specialize (IH st1 Hst1).
      destruct (group_words st1 rest) as [lines st'].
      destruct IH as (Hst' & Hlines & Hcat).
      split; [exact Hst' | split; [exact Hlines|]].
      rewrite Hcat. unfold st1. simpl. now rewrite <- app_assoc.
Qed.

Lemma kept_has_end words :
  omap kept_text words <> [] -> last_valid_end words <> None.
Proof.
  intros Hkept. unfold last_valid_end.
  assert (Hex : exists w e, w ∈ words /\ rw_end w = Some e).
  { destruct (omap kept_text words) as [|t ts] eqn:Ho; [congruence|].
    assert (Ht : t ∈ omap kept_text words) by (rewrite Ho; left).
    apply list_elem_of_omap in Ht as (w & Hw & Hk).
    unfold kept_text in Hk.
    destruct (rw_start w); [|discriminate].
    destruct (rw_end w) as [e|] eqn:He; [|discriminate]. eauto. }
  destruct Hex as (w & e & Hw & He).
  assert (Hin : e ∈ omap rw_end (reverse words)).
  { apply list_elem_of_omap. exists w. split; [now apply elem_of_reverse | exact He]. }
  destruct (omap rw_end (reverse words)); [inversion Hin | discriminate].
Qed.

Lemma segment_lines_spec segment :
  rs_words segment <> [] ->
  Forall well_grouped (segment_lines segment) /\
  concat (l_words <$> segment_lines segment) = omap kept_text (rs_words segment).
Proof.
  intros Hwords. unfold segment_lines.
  destruct (rs_words segment) as [|w ws] eqn:Hw; [congruence|]. clear Hwords.
  pose proof (group_words_spec (w :: ws) fresh fresh_ok) as Hspec.
  pose proof (kept_has_end (w :: ws)) as Hend.
  destruct (group_words fresh (w :: ws)) as [lines st].
  destruct Hspec as ((Hcount & Hlt & Hplain & Hstart) & Hlines & Hcat).
  cbn [current_segment fresh app] in Hcat.
  destruct (current_segment st) as [|t ts] eqn:Hseg.
  - rewrite app_nil_r in Hcat. now split.
  - destruct (current_start st) as [cs|]; [|now destruct Hstart].
    destruct (last_valid_end (w :: ws)) as [e|].
    + split.
      * apply Forall_app. split; [exact Hlines|]. repeat constructor.
        unfold max_words_per_segment in Hlt.
        destruct (exists_last (l := t :: ts) ltac:(discriminate)) as (ws' & w' & Heq).
        exists ws', w'. simpl. rewrite Heq in *.
        rewrite length_app in Hcount. simpl in Hcount.
        split; [reflexivity | split; [lia|]].
        apply Forall_app in Hplain. tauto.
      * rewrite fmap_app, concat_app. simpl. rewrite app_nil_r. exact Hcat.
    + exfalso. apply Hend; [|reflexivity]. rewrite <- Hcat.
      destruct (concat (l_words <$> lines)); discriminate.
Qed.

(** X18. No word is lost and none is repeated when a transcribed segment
    is cut into lines: the words of its lines, in order, are the kept words
    of the segment, the ones with a start, an end and a text that is not
    blank.  The words still pending when the segment ends always find an
    end time and are written as a last line. *)
Theorem segment_lines_keep_every_word (segment : raw_segment) :
  rs_words segment <> [] ->
  concat (l_words <$> segment_lines segment) = omap kept_text (rs_words segment).
Proof. intros Hwords. now apply segment_lines_spec. Qed.

(** X19. Every line of a segment with words has between one and eight
    words, and a word that ends a sentence is the last of its line: no line
    runs over the end of a sentence. *)
Theorem segment_lines_are_well_grouped (segment : raw_segment) :
  rs_words segment <> [] ->
  Forall well_grouped (segment_lines segment).
Proof. intros Hwords. now apply segment_lines_spec. Qed.

End Grouping.

Lemma segment_lines_keep_every_word_witness :
  concat (Transcriber.l_words <$> Transcriber.segment_lines MoreExamples.spoken)
  = ["Hello"; "world."; "again"].
Proof.
  apply (segment_lines_keep_every_word MoreExamples.spoken). discriminate.
Defined.

Lemma segment_lines_are_well_grouped_witness :
  Forall LineFacts.well_grouped (Transcriber.segment_lines MoreExamples.spoken).
Proof.
  apply (segment_lines_are_well_grouped MoreExamples.spoken). discriminate.
Defined.

(** ** From the transcriber to the analyzer *)

Section LineRoundTrip.

Import Transcriber.




Lemma rstrip_cons_nonspace c s :
  is_space c = false -> rstrip (String c s) = String c (rstrip s).
Proof. intros Hc. cbn [rstrip]. rewrite Hc. now destruct (rstrip s). Qed.

Lemma rstrip_cons_before c1 c2 s :
  is_space c2 = false -> rstrip (String c1 (String c2 s)) = String c1 (rstrip (String c2 s)).
Proof.
  intros Hc. change (rstrip (String c1 (String c2 s)))
    with (match rstrip (String c2 s) with
          | EmptyString => if is_space c1 then EmptyString else String c1 EmptyString
          | r => String c1 r
          end).
  now rewrite (rstrip_cons_nonspace _ _ Hc).
Qed.












End LineRoundTrip.


(** ** Splitting by duration *)

Section SplitFacts.

Import Splitter ClipFacts.

Lemma qlt_true a b : VideoUtils.qlt a b = true -> (a < b)%Q.
Proof.
  unfold VideoUtils.qlt. intros Hlt. apply negb_true_iff in Hlt.
  now apply qle_bool_false.
Qed.

Lemma qlt_false a b : VideoUtils.qlt a b = false -> (b <= a)%Q.
Proof.
  unfold VideoUtils.qlt. intros Hlt. apply negb_false_iff in Hlt.
  now apply Qle_bool_iff.
Qed.

Lemma qlt_intro a b : (a < b)%Q -> VideoUtils.qlt a b = true.
Proof.
  intros Hlt. destruct (VideoUtils.qlt a b) eqn:Hq; [reflexivity|].
  apply qlt_false in Hq. lra.
Qed.

Lemma qle_bool_gt x y : (y < x)%Q -> Qle_bool x y = false.
Proof.
  intros Hlt. destruct (Qle_bool x y) eqn:Hle; [|reflexivity].
  apply Qle_bool_iff in Hle. lra.
Qed.

Lemma qmin_cases a b :
  (VideoUtils.qmin a b = a /\ (a <= b)%Q) \/ (VideoUtils.qmin a b = b /\ (b < a)%Q).
Proof.
  unfold VideoUtils.qmin. destruct (Qle_bool a b) eqn:Hle.
  - left. split; [reflexivity | now apply Qle_bool_iff].
  - right. split; [reflexivity | now apply qle_bool_false].
Qed.

Lemma inject_Z_pos d : 1 <= d -> (1 <= inject_Z d)%Q.
Proof. intros Hd. change 1%Q with (inject_Z 1). now rewrite <- Zle_Qle. Qed.

Lemma inject_Z_nonpos d : d <= 0 -> (inject_Z d <= 0)%Q.
Proof. intros Hd. change 0%Q with (inject_Z 0). now rewrite <- Zle_Qle. Qed.

Lemma split_loop_agree run d total :
  1 <= d ->
  forall fuel current_start clip_count,
    split_loop fuel (fun n s e => run n s (e - s)%Q) d total current_start clip_count
    = split_loop_ffmpeg fuel run d total current_start clip_count.
Proof.
  intros Hd. apply inject_Z_pos in Hd.
  induction fuel as [|fuel IH]; intros cs count; [reflexivity|].
  cbn [split_loop split_loop_ffmpeg].
  destruct (VideoUtils.qlt cs total) eqn:Hlt; [|reflexivity].
  apply qlt_true in Hlt.
  rewrite qle_bool_gt.
  - now rewrite IH.
  - destruct (qmin_cases (cs + inject_Z d) total) as [[-> ?]|[-> ?]]; lra.
Qed.

(** X21. For pieces of one second or more, the splitter that cuts with
    the media library and the one that calls [ffmpeg] do the same: from the
    same video they make the same records, in the same order, when cutting
    a piece succeeds for the one exactly when it does for the other. *)
Theorem splitters_agree_on_positive_durations (fuel : nat) (run : Z -> Q -> Q -> bool)
    (duration_seconds : Z) (total_duration : Q) :
  1 <= duration_seconds ->
  split_video_by_duration fuel (fun n s e => run n s (e - s)%Q)
    duration_seconds total_duration
  = split_video_by_duration_ffmpeg fuel run duration_seconds total_duration.
Proof. intros Hd. now apply split_loop_agree. Qed.

Lemma split_loop_ffmpeg_runs_on run d total :
  d <= 0 -> (0 < total)%Q ->
  forall fuel current_start clip_count,
    (current_start <= 0)%Q ->
    split_loop_ffmpeg fuel run d total current_start clip_count = None.
Proof.
  intros Hd Htotal. apply inject_Z_nonpos in Hd.
  induction fuel as [|fuel IH]; intros cs count Hcs; [reflexivity|].
  cbn [split_loop_ffmpeg].
  rewrite qlt_intro by lra.
  rewrite IH; [reflexivity|].
  destruct (qmin_cases (cs + inject_Z d) total) as [[-> ?]|[-> ?]]; lra.
Qed.

(** X22. With a piece length of zero or less and a video that has a
    duration, the splitter that calls [ffmpeg] never returns: its position
    never moves forward, and every round starts another [ffmpeg] process.
    The splitter that cuts with the media library stops in its first round
    and returns no record. *)
Theorem ffmpeg_splitter_never_returns_on_zero_duration (fuel : nat)
    (run write : Z -> Q -> Q -> bool) (duration_seconds : Z) (total_duration : Q) :
  duration_seconds <= 0 -> (0 < total_duration)%Q ->
  split_video_by_duration_ffmpeg fuel run duration_seconds total_duration = None /\
  split_video_by_duration (S fuel) write duration_seconds total_duration = Some [].
Proof.
  intros Hd Htotal. split.
  - apply split_loop_ffmpeg_runs_on; [assumption | assumption | lra].
  - unfold split_video_by_duration. cbn [split_loop].
    rewrite qlt_intro by exact Htotal.
    apply inject_Z_nonpos in Hd.
    replace (Qle_bool _ 0) with true; [reflexivity|].
    symmetry. apply Qle_bool_iff.
    destruct (qmin_cases (0 + inject_Z duration_seconds) total_duration)
      as [[-> ?]|[-> ?]]; lra.
Qed.

Lemma ceiling_positive y : (0 < y)%Q -> 0 < Qceiling y.
Proof.
  intros Hy. pose proof (Qle_ceiling y) as Hc.
  assert (Hlt : (inject_Z 0 < inject_Z (Qceiling y))%Q) by (change (inject_Z 0) with 0%Q; lra).
  now rewrite <- Zlt_Qlt in Hlt.
Qed.

Lemma ceiling_step y z : (z <= y - 1)%Q -> Qceiling z <= Qceiling y - 1.
Proof.
  intros Hz. pose proof (Qle_ceiling y) as Hc.
  rewrite <- (Qceiling_Z (Qceiling y - 1)). apply Qceiling_resp_le.
  unfold Z.sub. rewrite inject_Z_plus. change (inject_Z (Z.opp 1)) with (-1)%Q. lra.
Qed.

Lemma split_loop_stops write d total fuel clip_count current_start :
  (total <= current_start)%Q ->
  split_loop (S fuel) write d total current_start clip_count = Some [].
Proof.
  intros Hle. cbn [split_loop].
  destruct (VideoUtils.qlt current_start total) eqn:Hlt; [|reflexivity].
  apply qlt_true in Hlt. lra.
Qed.

Lemma split_loop_spec write d total :
  1 <= d ->
  forall fuel current_start clip_count,
    (Z.to_nat (Qceiling (total - current_start)) < fuel)%nat ->
    (0 <= current_start)%Q ->
    (current_start == inject_Z (clip_count * d))%Q ->
    exists clips,
      split_loop fuel write d total current_start clip_count = Some clips /\
      Forall (clip_within d total) clips /\
      ((forall n s e, write n s e = true) -> (current_start <= total)%Q ->
       tiles current_start clips total).
Proof.
  intros Hd. pose proof (inject_Z_pos d Hd) as HdQ.
  induction fuel as [|fuel IH]; intros cs count Hfuel Hcs Hmul.
  - lia.
  - cbn [split_loop].
    destruct (VideoUtils.qlt cs total) eqn:Hlt.
    + apply qlt_true in Hlt.
      set (current_end := VideoUtils.qmin (cs + inject_Z d) total).
      assert (Hend : (cs < current_end)%Q /\ (current_end <= total)%Q /\
                     (current_end <= cs + inject_Z d)%Q).
      { unfold current_end.
        destruct (qmin_cases (cs + inject_Z d) total) as [[-> ?]|[-> ?]];
          repeat split; lra. }
      destruct Hend as (Hstart & Hle & Hlen).
      rewrite qle_bool_gt by lra.
      assert (Hrest : exists rest,
                 split_loop fuel write d total current_end (count + 1) = Some rest /\
                 Forall (clip_within d total) rest /\
                 ((forall n s e, write n s e = true) -> tiles current_end rest total)).
      { unfold current_end in *.
        destruct (qmin_cases (cs + inject_Z d) total) as [[Heq Hfit]|[Heq Hover]];
          rewrite Heq in *.
        - destruct (IH (cs + inject_Z d)%Q (count + 1)) as (rest & Hrun & Hall & Htile).
          + pose proof (ceiling_step (total - cs) (total - (cs + inject_Z d)) ltac:(lra)).
            pose proof (ceiling_positive (total - cs) ltac:(lra)). lia.
          + lra.
          + rewrite Hmul, Z.mul_add_distr_r, Z.mul_1_l, inject_Z_plus. reflexivity.
          + exists rest. split; [exact Hrun | split; [exact Hall|]].
            intros Hw. now apply Htile.
        - destruct fuel as [|fuel'].
          + exfalso. pose proof (ceiling_positive (total - cs) ltac:(lra)). lia.
          + exists []. rewrite split_loop_stops by lra.
            split; [reflexivity | split; [constructor|]].
            intros _. simpl. reflexivity. }
      destruct Hrest as (rest & -> & Hall & Htile).
      assert (Hclip : clip_within d total
                {| clip_number := count + 1; sc_start := cs; sc_end := current_end;
                   sc_duration := (current_end - cs)%Q |}).
      { unfold clip_within. simpl.
        repeat split; try assumption; try lra.
        rewrite Hmul. now replace (count + 1 - 1) with count by lia. }
      destruct (write (count + 1) cs current_end) eqn:Hwrite.
      * eexists. split; [reflexivity | split; [now constructor|]].
        intros Hw _. simpl. split; [reflexivity | now apply Htile].
      * exists rest. split; [reflexivity | split; [exact Hall|]].
        intros Hw _. rewrite Hw in Hwrite. discriminate.
    + apply qlt_false in Hlt. exists [].
      split; [reflexivity | split; [constructor|]].
      intros _ Hle. simpl. lra.
Qed.

(** X23. For pieces of one second or more the splitter returns, and its
    records are pieces of the video: each is a non-empty stretch inside
    the video, at most the piece length long, that starts at the multiple
    of the piece length given by its number.  When every piece can be
    written, the records cover the video from its start to its end without
    gap or overlap. *)
Theorem splitter_returns_pieces_that_tile (fuel : nat) (write : Z -> Q -> Q -> bool)
    (duration_seconds : Z) (total_duration : Q) :
  1 <= duration_seconds ->
  (Z.to_nat (Qceiling total_duration) < fuel)%nat ->
  exists clips,
    split_video_by_duration fuel write duration_seconds total_duration = Some clips /\
    Forall (clip_within duration_seconds total_duration) clips /\
    ((forall n s e, write n s e = true) -> (0 <= total_duration)%Q ->
     tiles 0 clips total_duration).
Proof.
  intros Hd Hfuel. unfold split_video_by_duration.
  apply split_loop_spec; [exact Hd | | lra | reflexivity].
  assert (Heq : Qceiling (total_duration - 0) = Qceiling total_duration).
  { apply Z.le_antisymm; apply Qceiling_resp_le; lra. }
  now rewrite Heq.
Qed.

End SplitFacts.

Lemma splitters_agree_on_positive_durations_witness :
  Splitter.split_video_by_duration 10 (fun _ _ _ => true) 30 (75 # 1)
  = Splitter.split_video_by_duration_ffmpeg 10 (fun _ _ _ => true) 30 (75 # 1).
Proof.
  apply (splitters_agree_on_positive_durations 10 (fun _ _ _ => true) 30 (75 # 1)). lia.
Defined.

Lemma ffmpeg_splitter_never_returns_on_zero_duration_witness :
  Splitter.split_video_by_duration_ffmpeg 5 (fun _ _ _ => true) 0 (75 # 1) = None /\
  Splitter.split_video_by_duration 6 (fun _ _ _ => true) 0 (75 # 1) = Some [].
Proof.
  apply (ffmpeg_splitter_never_returns_on_zero_duration 5 (fun _ _ _ => true)
           (fun _ _ _ => true) 0 (75 # 1)); [lia | reflexivity].
Defined.

Lemma splitter_returns_pieces_that_tile_witness :
  exists clips,
    Splitter.split_video_by_duration 80 (fun _ _ _ => true) 30 (75 # 1) = Some clips /\
    Forall (ClipFacts.clip_within 30 (75 # 1)) clips /\
    ((forall n s e, (fun (_ : Z) (_ _ : Q) => true) n s e = true) -> (0 <= 75 # 1)%Q ->
     ClipFacts.tiles 0 clips (75 # 1)).
Proof.
  apply (splitter_returns_pieces_that_tile 80 (fun _ _ _ => true) 30 (75 # 1));
    [lia | vm_compute; lia].
Defined.

(** ** Clips with transitions *)

Section TransitionFacts.
Context `{Builtins} `{VideoUtils.Renderer} `{Transitions.TransitionTools}.

Import Transitions ClipFacts.

Lemma plain_stands_for clips : Forall2 stands_for (plain <$> clips) clips.
Proof. induction clips; constructor; [now left | assumption]. Qed.

Lemma enhance_from_stands_for output_dir transitions clips :
  forall i prev, Forall2 stands_for (enhance_from output_dir transitions i prev clips) clips.
Proof.
  induction clips as [|c clips IH]; intros i prev; cbn [enhance_from]; constructor.
  - destruct (apply_transition_effect _ _ _ _); [right | now left].
    split; reflexivity.
  - apply IH.
Qed.

Lemma stands_for_clip_id enhanced clips :
  Forall2 stands_for enhanced clips ->
  (fun e => VideoUtils.clip_id (ec_info e)) <$> enhanced = VideoUtils.clip_id <$> clips.
Proof.
  induction 1 as [|e c enhanced clips Hec _ IH]; [reflexivity|].
  rewrite !fmap_cons, IH. f_equal.
  destruct Hec as [->|[_ ->]]; reflexivity.
Qed.

(** X24. Adding transitions never changes which clips there are: the
    enhanced index has one record for every clip of the plain index, in the
    same order and with the same clip ids; a record is the clip's own, or
    the clip's under a new file name and path when the transition could be
    rendered, and the first clip is always left as it is. *)
Theorem transitions_keep_the_clip_index (video_path : string) (segments : list pyval)
    (output_dir : string) :
  let clips_info := VideoUtils.create_clips_from_segments video_path segments output_dir in
  let enhanced_clips := create_clips_with_transitions video_path segments output_dir in
  Forall2 stands_for enhanced_clips clips_info /\
  (fun e => VideoUtils.clip_id (ec_info e)) <$> enhanced_clips
    = VideoUtils.clip_id <$> clips_info /\
  head enhanced_clips = plain <$> head clips_info.
Proof.
  intros clips_info enhanced_clips.
  assert (Hall : Forall2 stands_for enhanced_clips clips_info /\
                 head enhanced_clips = plain <$> head clips_info).
  { unfold enhanced_clips, create_clips_with_transitions. fold clips_info.
    destruct (length clips_info <? 2)%nat.
    { split; [apply plain_stands_for | now destruct clips_info]. }
    destruct available_transitions as [|t ts].
    { split; [apply plain_stands_for | now destruct clips_info]. }
    destruct clips_info as [|first rest]; [split; [constructor | reflexivity]|].
    split; [|reflexivity].
    constructor; [now left | apply enhance_from_stands_for]. }
  destruct Hall as [Hall Hhead].
  split; [exact Hall | split; [now apply stands_for_clip_id | exact Hhead]].
Qed.

End TransitionFacts.
